(** * analyze.py: line metrics of a source file

    Shallow embedding of
    [packages/gateway/data/example-skills/code-review/scripts/analyze.py]
    and the properties of its report.

    Python values are modelled as the interpreter has them: a [str] is a
    list of Unicode code points, an [int] is an unbounded integer ([Z]),
    a [float] is an IEEE 754 binary64 number ([spec_float] at precision 53
    and maximal exponent 1024), an exception is a value that short-cuts
    the rest of the computation. *)

From Stdlib Require Import List ZArith NArith Lia Bool.
From Stdlib Require Import Permutation.
From Stdlib Require Import Ascii String DecimalString.
From Stdlib Require Import Floats.SpecFloat.
Import ListNotations.

Local Open Scope Z_scope.

(** ** Python strings *)

Module PyStr.

(** A character is a Unicode code point. *)
Definition char := N.
Definition str := list char.

(** Literals of the source text are written as Rocq strings. *)
Definition of_string (s : string) : str :=
  map N_of_ascii (list_ascii_of_string s).

Definition len (s : str) : Z := Z.of_nat (List.length s).

(** The characters for which [str.isspace] holds; [str.strip] removes
    them and the regular expression class [\s] matches them. *)
Definition isspace (c : char) : bool :=
  (((9 <=? c) && (c <=? 13)) || ((28 <=? c) && (c <=? 32))
   || (c =? 133) || (c =? 160) || (c =? 5760)
   || ((8192 <=? c) && (c <=? 8202))
   || (c =? 8232) || (c =? 8233) || (c =? 8239) || (c =? 8287)
   || (c =? 12288))%N.

Fixpoint lstrip (s : str) : str :=
  match s with
  | [] => []
  | c :: s' => if isspace c then lstrip s' else s
  end.

Definition rstrip (s : str) : str := rev (lstrip (rev s)).

Definition strip (s : str) : str := rstrip (lstrip s).

Fixpoint startswith (s prefix : str) : bool :=
  match prefix, s with
  | [], _ => true
  | _ :: _, [] => false
  | p :: prefix', c :: s' => (N.eqb c p) && startswith s' prefix'
  end.

(** [s == t] *)
Fixpoint eqb (s t : str) : bool :=
  match s, t with
  | [], [] => true
  | c :: s', d :: t' => N.eqb c d && eqb s' t'
  | _, _ => false
  end.

(** Truth value of a string: non-empty. *)
Definition truthy (s : str) : bool :=
  match s with [] => false | _ :: _ => true end.

(** [str(n)] for an int, as an f-string field prints it. *)
Definition str_of_int (n : Z) : str :=
  of_string (NilEmpty.string_of_int (Z.to_int n)).

End PyStr.

Import PyStr.

(** ** The fragment of [re] that [func_pattern] is written in *)

Module Re.

Inductive regex :=
| Bol                         (* ^      start of the subject *)
| Lit (s : str)               (* abc    a run of literal characters *)
| StarC (p : char -> bool)    (* \s*    greedy repetition of a class *)
| PlusC (p : char -> bool)    (* \w+    greedy, at least once *)
| Opt (r : regex)             (* (?:r)? greedy option *)
| Alt (r1 r2 : regex)         (* r1|r2  left alternative first *)
| Seq (r1 r2 : regex).        (* r1r2 *)

(** A configuration of the matcher: how many characters of the subject
    have been consumed, and what is left of it. *)
Definition config := (nat * str)%type.

Fixpoint strip_prefix (lit s : str) : option str :=
  match lit, s with
  | [], _ => Some s
  | _ :: _, [] => None
  | a :: lit', c :: s' => if N.eqb c a then strip_prefix lit' s' else None
  end.

(** All the ways a class repetition can stop, the longest first. *)
Fixpoint spans (p : char -> bool) (n : nat) (s : str) : list config :=
  match s with
  | [] => [(n, [])]
  | c :: s' => if p c then spans p (S n) s' ++ [(n, s)] else [(n, s)]
  end.

(** The configurations the backtracking matcher reaches after [r],
    in the order it tries them. *)
Fixpoint run (r : regex) (c : config) : list config :=
  match r with
  | Bol => if Nat.eqb (fst c) 0 then [c] else []
  | Lit lit =>
      match strip_prefix lit (snd c) with
      | Some rest => [((fst c + List.length lit)%nat, rest)]
      | None => []
      end
  | StarC p => spans p (fst c) (snd c)
  | PlusC p =>
      match snd c with
      | x :: s' => if p x then spans p (S (fst c)) s' else []
      | [] => []
      end
  | Opt r' => run r' c ++ [c]
  | Alt r1 r2 => run r1 c ++ run r2 c
  | Seq r1 r2 => flat_map (run r2) (run r1 c)
  end.

(** [pattern.match(s)]: the first match found at the start of [s], or
    [None]. *)
Definition match_ (r : regex) (s : str) : option config :=
  hd_error (run r (0%nat, s)).

(** Truth value of the result of [match]. *)
Definition matched (r : regex) (s : str) : bool :=
  match match_ r s with Some _ => true | None => false end.

End Re.

(** ** Python floats *)

Module Float.

Definition prec : Z := 53.
Definition emax : Z := 1024.

Definition float := spec_float.

(** An int as the exact (not yet rounded) binary number it is. *)
Definition exact_of_int (n : Z) : spec_float :=
  match n with
  | Z0 => S754_zero false
  | Zpos p => S754_finite false p 0
  | Zneg p => S754_finite true p 0
  end.

(** [float(n)]: the int rounded to the nearest float. The program
    converts one int only, the literal [100] that the ratio is
    multiplied by. *)
Definition of_int (n : Z) : float := binary_normalize prec emax n 0 false.

Definition mul (x y : float) : float := SFmul prec emax x y.

(** The correctly rounded quotient of two ints, which is what [a / b]
    computes on ints of any size. *)
Definition div_int (a b : Z) : float :=
  SFdiv prec emax (exact_of_int a) (exact_of_int b).

Definition is_finite (x : float) : bool :=
  match x with
  | S754_zero _ | S754_finite _ _ _ => true
  | _ => false
  end.

(** [round(num / den)] to the nearest integer, ties to even, for
    [0 <= num] and [0 < den]. *)
Definition round_half_even (num den : Z) : Z :=
  let q := num / den in
  let r := num mod den in
  match 2 * r ?= den with
  | Lt => q
  | Gt => q + 1
  | Eq => if Z.even q then q else q + 1
  end.

(** The magnitude [m * 2^e] in tenths, rounded to the nearest integer. *)
Definition tenths (m : positive) (e : Z) : Z :=
  match e with
  | Zneg p => round_half_even (Zpos m * 10) (2 ^ Zpos p)
  | _ => Zpos m * 2 ^ e * 10
  end.

Definition sign_str (s : bool) : str :=
  if s then of_string "-" else [].

(** The format specification [.1f]: fixed point, one digit after the
    point, correctly rounded from the exact binary value. *)
Definition format_1f (x : float) : str :=
  match x with
  | S754_zero s => sign_str s ++ of_string "0.0"
  | S754_infinity s => sign_str s ++ of_string "inf"
  | S754_nan => of_string "nan"
  | S754_finite s m e =>
      let t := tenths m e in
      sign_str s ++ str_of_int (t / 10) ++ of_string "." ++ str_of_int (t mod 10)
  end.

End Float.

(** ** Exceptions, standard output and the files a run opens *)

Module Py.

Inductive exn :=
| FileNotFoundError
| PermissionError
| IsADirectoryError
| OSError
| UnicodeDecodeError
| ValueError
| OverflowError
| ZeroDivisionError
| IndexError
| SystemExit (code : Z).

(** The exceptions of the I/O class: [OSError] and its subclasses. *)
Definition is_OSError (e : exn) : bool :=
  match e with
  | FileNotFoundError | PermissionError | IsADirectoryError | OSError => true
  | _ => false
  end.

Inductive res (A : Type) :=
| Ok (a : A)
| Raise (e : exn).
Arguments Ok {A} a.
Arguments Raise {A} e.

(** What a run has done so far: the characters written to standard
    output, and the paths it has tried to open, oldest first. *)
Record world := { stdout : str; opened : list str }.

Definition M (A : Type) := world -> res A * world.

Definition ret {A} (a : A) : M A := fun w => (Ok a, w).

Definition bind {A B} (c : M A) (k : A -> M B) : M B :=
  fun w =>
    match c w with
    | (Ok a, w') => k a w'
    | (Raise e, w') => (Raise e, w')
    end.

Definition raise {A} (e : exn) : M A := fun w => (Raise e, w).

(** [print(s)]: the text and a newline. Standard output is taken to
    accept every write; a stream that cannot encode the text, or that is
    closed, is outside this model. *)
Definition print (s : str) : M unit :=
  fun w => (Ok tt, {| stdout := stdout w ++ s ++ of_string (String "010" "");
                      opened := opened w |}).

(** What reading a path as text gives: the list [readlines] returns, or
    the exception [open] or the read raises. *)
Definition filesystem := str -> res (list str).

(** [with open(path) as f: lines = f.readlines()] *)
Definition open_readlines (fs : filesystem) (path : str) : M (list str) :=
  fun w => (fs path, {| stdout := stdout w; opened := opened w ++ [path] |}).

(** [max] of the values of a generator. *)
Definition max (xs : list Z) : M Z :=
  match xs with
  | [] => raise ValueError
  | x :: xs' => ret (fold_left Z.max xs' x)
  end.

(** [sum] of the values of a generator. *)
Definition sum (xs : list Z) : Z := fold_left Z.add xs 0.

(** [a / b] on ints. *)
Definition truediv (a b : Z) : M Float.float :=
  if b =? 0 then raise ZeroDivisionError
  else
    let q := Float.div_int a b in
    if Float.is_finite q then ret q else raise OverflowError.

(** [xs[i]] *)
Definition index {A} (xs : list A) (i : nat) : M A :=
  match nth_error xs i with
  | Some x => ret x
  | None => raise IndexError
  end.

(** [sys.exit(code)] *)
Definition sys_exit {A} (code : Z) : M A := raise (SystemExit code).

End Py.

Notation "x <- c ;; k" := (Py.bind c (fun x => k))
  (at level 61, c at next level, right associativity).
Notation "c ;;; k" := (Py.bind c (fun _ => k))
  (at level 61, right associativity).

(** ** analyze.py *)

Module Analyze.

Import Py.

Local Abbreviation lit := of_string (only parsing).

Section Interpreter.

(** [str.isalnum] beyond ASCII, as the interpreter's Unicode database
    has it. Within ASCII the alphanumerics are the digits and the
    letters; the rest of the table is not part of the program. *)
Variable unicode_alnum : char -> bool.

Definition isalnum (c : char) : bool :=
  (if c <? 128
   then ((48 <=? c) && (c <=? 57)) || ((65 <=? c) && (c <=? 90))
        || ((97 <=? c) && (c <=? 122))
   else unicode_alnum c)%N.

(** The class [\w]: alphanumeric, or the underscore. *)
Definition isword (c : char) : bool := isalnum c || (c =? 95)%N.

(** [r'^\s*(def |function |async function |const \w+ = (?:async )?\()'] *)
Definition func_pattern : Re.regex :=
  Re.Seq Re.Bol
    (Re.Seq (Re.StarC isspace)
       (Re.Alt (Re.Lit (lit "def "))
          (Re.Alt (Re.Lit (lit "function "))
             (Re.Alt (Re.Lit (lit "async function "))
                (Re.Seq (Re.Lit (lit "const "))
                   (Re.Seq (Re.PlusC isword)
                      (Re.Seq (Re.Lit (lit " = "))
                         (Re.Seq (Re.Opt (Re.Lit (lit "async ")))
                            (Re.Lit (lit "(")))))))))).

(** The conditions of the four counting generators, on a line [l]. *)
Definition is_code (l : str) : bool :=
  truthy (strip l) && negb (startswith (strip l) (lit "#"))
  && negb (startswith (strip l) (lit "//")).

Definition is_comment (l : str) : bool :=
  startswith (strip l) (lit "#") || startswith (strip l) (lit "//").

Definition is_blank (l : str) : bool := negb (truthy (strip l)).

Definition is_function (l : str) : bool := Re.matched func_pattern l.

(** [sum(1 for l in lines if cond(l))] *)
Definition count (cond : str -> bool) (lines : list str) : Z :=
  Py.sum (map (fun _ => 1) (filter cond lines)).

Definition total_lines (lines : list str) : Z :=
  Z.of_nat (List.length lines).
Definition code_lines (lines : list str) : Z := count is_code lines.
Definition comment_lines (lines : list str) : Z := count is_comment lines.
Definition blank_lines (lines : list str) : Z := count is_blank lines.
Definition functions (lines : list str) : Z := count is_function lines.

(** [len(l) - len(l.lstrip())] *)
Definition indent (l : str) : Z := len l - len (lstrip l).

(** [max(... for l in lines if l.strip()) if lines else 0] *)
Definition max_indent (lines : list str) : M Z :=
  match lines with
  | _ :: _ =>
      Py.max (map indent (filter (fun l => truthy (strip l)) lines))
  | [] => ret 0
  end.

Variable fs : filesystem.

Definition analyze_file (filepath : str) : M unit :=
  lines <- open_readlines fs filepath ;;
  let total_lines := total_lines lines in
  let code_lines := code_lines lines in
  let comment_lines := comment_lines lines in
  let blank_lines := blank_lines lines in
  let functions := functions lines in
  max_indent <- max_indent lines ;;
  print (lit "File: " ++ filepath) ;;;
  print (lit "Total lines: " ++ str_of_int total_lines) ;;;
  print (lit "Code lines: " ++ str_of_int code_lines) ;;;
  print (lit "Comment lines: " ++ str_of_int comment_lines) ;;;
  print (lit "Blank lines: " ++ str_of_int blank_lines) ;;;
  print (lit "Functions: " ++ str_of_int functions) ;;;
  print (lit "Max indentation: " ++ str_of_int max_indent ++ lit " spaces") ;;;
  q <- truediv comment_lines (Z.max code_lines 1) ;;
  print (lit "Comment ratio: "
         ++ Float.format_1f (Float.mul q (Float.of_int 100)) ++ lit "%").

(** The body of [if __name__ == '__main__':], on [sys.argv]. *)
Definition main (argv : list str) : M unit :=
  (if Z.of_nat (List.length argv) <? 2
   then print (lit "Usage: analyze.py <filepath>") ;;; sys_exit 1
   else ret tt) ;;;
  filepath <- index argv 1 ;;
  analyze_file filepath.

(** A run of the script as a process: what it wrote, what it tried
    to open, the exception that ended it if one did, and its exit
    status: 0 at the end of the script, the code of [sys.exit], and 1
    after the trace of any other exception. *)
Record process := {
  output : str;
  files_opened : list str;
  uncaught : option exn;
  exit_status : Z
}.

Definition run (argv : list str) : process :=
  let '(r, w) := main argv {| stdout := []; opened := [] |} in
  {| output := stdout w;
     files_opened := opened w;
     uncaught := match r with
                 | Ok _ | Raise (SystemExit _) => None
                 | Raise e => Some e
                 end;
     exit_status := match r with
                    | Ok _ => 0
                    | Raise (SystemExit code) => code
                    | Raise _ => 1
                    end |}.

End Interpreter.

End Analyze.

(** ** What the report is specified to be *)

Module Spec.

Import Py Analyze.

Local Abbreviation lit := of_string (only parsing).

(** Which configurations a regular expression relates, stated without
    reference to the order in which a matcher tries them. *)
Inductive Matches : Re.regex -> Re.config -> Re.config -> Prop :=
| MBol s : Matches Re.Bol (0%nat, s) (0%nat, s)
| MLit l n s :
    Matches (Re.Lit l) (n, l ++ s) ((n + List.length l)%nat, s)
| MStar p n w s :
    forallb p w = true ->
    Matches (Re.StarC p) (n, w ++ s) ((n + List.length w)%nat, s)
| MPlus p n w s :
    w <> [] -> forallb p w = true ->
    Matches (Re.PlusC p) (n, w ++ s) ((n + List.length w)%nat, s)
| MOptSkip r c : Matches (Re.Opt r) c c
| MOptTake r c c' : Matches r c c' -> Matches (Re.Opt r) c c'
| MAltL r1 r2 c c' : Matches r1 c c' -> Matches (Re.Alt r1 r2) c c'
| MAltR r1 r2 c c' : Matches r2 c c' -> Matches (Re.Alt r1 r2) c c'
| MSeq r1 r2 c c' c'' :
    Matches r1 c c' -> Matches r2 c' c'' -> Matches (Re.Seq r1 r2) c c''.

(** A function opener: after optional indentation the line goes on
    with [def ], [function ], [async function ], or [const], an
    identifier and [ = (] or [ = async (]. *)
Definition func_opener (unicode_alnum : char -> bool) (l : str) : Prop :=
  exists ws body,
    l = ws ++ body /\ forallb isspace ws = true /\
    (startswith body (lit "def ") = true
     \/ startswith body (lit "function ") = true
     \/ startswith body (lit "async function ") = true
     \/ exists ident tail,
          ident <> [] /\ forallb (isword unicode_alnum) ident = true /\
          (body = lit "const " ++ ident ++ lit " = (" ++ tail
           \/ body = lit "const " ++ ident ++ lit " = async (" ++ tail)).

Definition newline : str := lit (String "010" "").

(** The report: eight lines in a fixed order. *)
Definition report (filepath : str)
    (total code comment blank funcs indent : Z) (ratio : str) : str :=
  lit "File: " ++ filepath ++ newline
  ++ lit "Total lines: " ++ str_of_int total ++ newline
  ++ lit "Code lines: " ++ str_of_int code ++ newline
  ++ lit "Comment lines: " ++ str_of_int comment ++ newline
  ++ lit "Blank lines: " ++ str_of_int blank ++ newline
  ++ lit "Functions: " ++ str_of_int funcs ++ newline
  ++ lit "Max indentation: " ++ str_of_int indent ++ lit " spaces" ++ newline
  ++ lit "Comment ratio: " ++ ratio ++ lit "%" ++ newline.

(** The comment ratio as a float: [comment / max(code, 1) * 100]. *)
Definition ratio (comment code : Z) : Float.float :=
  Float.mul (Float.div_int comment (Z.max code 1)) (Float.of_int 100).

(** A number written with one decimal place: an integer part, the
    point, and one digit. *)
Definition one_decimal (text : str) : Prop :=
  exists a d, 0 <= a /\ 0 <= d <= 9
              /\ text = str_of_int a ++ lit "." ++ [Z.to_N (48 + d)].

(** The world after a run that started in [w] has tried to open [path]
    and has written [text]. *)
Definition after (w : world) (path text : str) : world :=
  {| stdout := stdout w ++ text; opened := opened w ++ [path] |}.

(** A process that has not written or opened anything yet. *)
Definition start : world := {| stdout := []; opened := [] |}.

(** The greatest number of elements a list can have: [sys.maxsize]. *)
Definition maxsize : Z := 2 ^ 63 - 1.

End Spec.

(** ** Sample runs *)

Module Demo.

Import Py Spec.

Definition script : str := of_string "analyze.py".

(** An interpreter without alphanumerics beyond ASCII. *)
Definition ascii_only : char -> bool := fun _ => false.

(** A line of a file, with its line end. *)
Definition line (s : string) : str := of_string s ++ newline.

Definition files : filesystem := fun path =>
  if eqb path (of_string "comments.py")
  then Ok [line "# one"; line "// two"; line "# three"]
  else if eqb path (of_string "blank.txt")
  then Ok [newline]
  else if eqb path (of_string "empty.py")
  then Ok []
  else if eqb path (of_string "module.py")
  then Ok [line "# tool"; line "def f():"; line "    return 1"; line ""]
  else Raise FileNotFoundError.

(** Another disk, with the same [module.py] and nothing else. *)
Definition other_files : filesystem := fun path =>
  if eqb path (of_string "module.py")
  then Ok [line "# tool"; line "def f():"; line "    return 1"; line ""]
  else Raise PermissionError.

(** A disk on which every path, whatever its characters, names a file
    of one code line. *)
Definition every_path : filesystem := fun _ => Ok [line "x = 1"].

End Demo.

Import Py Analyze Spec.

(** * Properties *)

(** ** Strings *)

Section StringFacts.

Lemma lstrip_app_last (xs : str) (c : char) :
  isspace c = false -> exists ys, lstrip (xs ++ [c]) = ys ++ [c].
Proof.
  intros Hc. induction xs as [|x xs IH]; simpl.
  - rewrite Hc. now exists [].
  - destruct (isspace x).
    + exact IH.
    + now exists (x :: xs).
Qed.

Lemma rstrip_cons (c : char) (s : str) :
  isspace c = false -> exists t, rstrip (c :: s) = c :: t.
Proof.
  intros Hc. unfold rstrip. simpl.
  destruct (lstrip_app_last (rev s) c Hc) as [ys ->].
  rewrite rev_app_distr. simpl. now exists (rev ys).
Qed.

Lemma lstrip_head (s : str) (c : char) (t : str) :
  lstrip s = c :: t -> isspace c = false.
Proof.
  induction s as [|x s IH]; simpl; [discriminate|].
  destruct (isspace x) eqn:Hx; [exact IH|].
  intros [= <- _]. exact Hx.
Qed.

(** The first character that is not whitespace is the first character
    of the stripped line. *)
Lemma strip_head (s : str) (c : char) (t : str) :
  lstrip s = c :: t -> exists t', strip s = c :: t'.
Proof.
  intros H. unfold strip. rewrite H.
  apply rstrip_cons. eapply lstrip_head; eauto.
Qed.

Lemma lstrip_app (ws s : str) :
  forallb isspace ws = true -> lstrip (ws ++ s) = lstrip s.
Proof.
  induction ws as [|w ws IH]; simpl; [reflexivity|].
  intros H. apply andb_prop in H as [-> H]. auto.
Qed.

Lemma lstrip_nonspace (c : char) (s : str) :
  isspace c = false -> lstrip (c :: s) = c :: s.
Proof. intros H. simpl. now rewrite H. Qed.

End StringFacts.

(** ** Counting *)

Section CountFacts.

Lemma sum_from (xs : list Z) (a : Z) : fold_left Z.add xs a = a + Py.sum xs.
Proof.
  unfold Py.sum. revert a.
  induction xs as [|x xs IH]; intros a; simpl; [lia|].
  rewrite (IH (a + x)), (IH x). lia.
Qed.

Lemma count_nil (cond : str -> bool) : count cond [] = 0.
Proof. reflexivity. Qed.

Lemma count_cons (cond : str -> bool) (l : str) (lines : list str) :
  count cond (l :: lines) = Z.b2z (cond l) + count cond lines.
Proof.
  unfold count. simpl. destruct (cond l); simpl; [|reflexivity].
  unfold Py.sum at 1. simpl. apply sum_from.
Qed.

Lemma count_nonneg (cond : str -> bool) (lines : list str) :
  0 <= count cond lines.
Proof.
  induction lines as [|l lines IH]; [now rewrite count_nil|].
  rewrite count_cons. destruct (cond l); cbn [Z.b2z]; lia.
Qed.

Lemma count_le_length (cond : str -> bool) (lines : list str) :
  count cond lines <= Z.of_nat (List.length lines).
Proof.
  induction lines as [|l lines IH]; [now rewrite count_nil|].
  rewrite count_cons. cbn [List.length]. destruct (cond l); cbn [Z.b2z]; lia.
Qed.

(** A condition that implies another is counted at most as often. *)
Lemma count_mono (p q : str -> bool) (lines : list str) :
  (forall l, p l = true -> q l = true) -> count p lines <= count q lines.
Proof.
  intros Hpq. induction lines as [|l lines IH]; [now rewrite !count_nil|].
  rewrite !count_cons. specialize (Hpq l).
  destruct (p l), (q l); cbn [Z.b2z]; lia.
Qed.

Lemma count_false (p : str -> bool) (lines : list str) :
  (forall l, In l lines -> p l = false) -> count p lines = 0.
Proof.
  induction lines as [|l lines IH]; intros H; [now rewrite count_nil|].
  rewrite count_cons, (H l (or_introl eq_refl)), IH; [reflexivity|].
  intros l' Hl'. apply H. now right.
Qed.

End CountFacts.

(** ** Classification of a line *)

Section Classification.

(** Every line is of exactly one of the three kinds. *)
Lemma line_kinds_partition (l : str) :
  Z.b2z (is_code l) + Z.b2z (is_comment l) + Z.b2z (is_blank l) = 1.
Proof.
  unfold is_code, is_comment, is_blank.
  destruct (strip l) as [|c t]; [reflexivity|].
  cbn [truthy]. 
  destruct (startswith (c :: t) (of_string "#")),
           (startswith (c :: t) (of_string "//")); reflexivity.
Qed.

Lemma blank_not_comment (l : str) : is_blank l = true -> is_comment l = false.
Proof.
  intros H. pose proof (line_kinds_partition l) as P. rewrite H in P.
  destruct (is_comment l), (is_code l); cbn [Z.b2z] in P; (reflexivity || lia).
Qed.

End Classification.

(** C1. For every list of lines read from the file, the three counts add
    up to the total: [code_lines + comment_lines + blank_lines =
    total_lines], the three conditions being mutually exclusive and
    exhaustive on every line. *)
Theorem counts_partition_total (lines : list str) :
  code_lines lines + comment_lines lines + blank_lines lines = total_lines lines
  /\ (forall l, Z.b2z (is_code l) + Z.b2z (is_comment l) + Z.b2z (is_blank l) = 1).
Proof.
  split; [|exact line_kinds_partition].
  unfold code_lines, comment_lines, blank_lines, total_lines.
  induction lines as [|l lines IH]; [reflexivity|].
  rewrite !count_cons. cbn [List.length].
  pose proof (line_kinds_partition l). lia.
Qed.

(** ** The matcher against the relation it decides *)

Section Matcher.

Lemma strip_prefix_spec (l s rest : str) :
  Re.strip_prefix l s = Some rest <-> s = l ++ rest.
Proof.
  revert s. induction l as [|a l IH]; intros s; simpl.
  - split; [now intros [= ->] | now intros ->].
  - destruct s as [|c s]; [split; discriminate|].
    destruct (N.eqb_spec c a) as [->|Hne].
    + rewrite IH. split; [now intros -> | now intros [= ->]].
    + split; [discriminate | intros [= E _]; contradiction].
Qed.

Lemma startswith_spec (s p : str) :
  startswith s p = true <-> exists t, s = p ++ t.
Proof.
  revert s. induction p as [|a p IH]; intros s; simpl.
  - split; [now exists s | now destruct s].
  - destruct s as [|c s]; simpl; [split; [discriminate | intros [t [=]]]|].
    rewrite andb_true_iff, N.eqb_eq, IH. split.
    + intros [-> [t ->]]. now exists t.
    + intros [t [= -> ->]]. split; [reflexivity | now exists t].
Qed.

Lemma spans_self (p : char -> bool) (n : nat) (s : str) :
  In (n, s) (Re.spans p n s).
Proof.
  destruct s as [|c s]; simpl; [now left|].
  destruct (p c); [apply in_or_app; right|]; now left.
Qed.

Lemma spans_spec (p : char -> bool) (n m : nat) (s t : str) :
  In (m, t) (Re.spans p n s) <->
  exists w, s = w ++ t /\ forallb p w = true /\ m = (n + List.length w)%nat.
Proof.
  split.
  - revert n. induction s as [|c s IH]; intros n; simpl.
    + intros [[= <- <-]|[]]. exists []. simpl. auto with arith.
    + destruct (p c) eqn:Hc.
      * intros H. apply in_app_or in H as [H|[[= <- <-]|[]]].
        -- destruct (IH _ H) as (w & -> & Hw & ->).
           exists (c :: w). simpl. rewrite Hc, Hw. repeat split. lia.
        -- exists []. simpl. auto with arith.
      * intros [[= <- <-]|[]]. exists []. simpl. auto with arith.
  - intros (w & -> & Hw & ->). revert n.
    induction w as [|x w IH]; intros n.
    + simpl. rewrite Nat.add_0_r. apply spans_self.
    + simpl in Hw. apply andb_prop in Hw as [Hx Hw].
      simpl. rewrite Hx. apply in_or_app. left.
      replace (n + S (List.length w))%nat with (S n + List.length w)%nat by lia.
      now apply IH.
Qed.

(** The matcher reaches exactly the configurations the expression
    relates to the one it starts from. *)
Lemma run_spec (r : Re.regex) (c c' : Re.config) :
  In c' (Re.run r c) <-> Matches r c c'.
Proof.
  revert c c'.
  induction r as [|l|p|p|r IH|r1 IH1 r2 IH2|r1 IH1 r2 IH2];
    intros [n s] [m t]; simpl.
  - destruct n; simpl.
    + split; [intros [[= <- <-]|[]]; constructor | inversion 1; now left].
    + split; [intros [] | inversion 1].
  - destruct (Re.strip_prefix l s) as [rest|] eqn:E.
    + apply strip_prefix_spec in E. subst s. split.
      * intros [[= <- <-]|[]]. constructor.
      * inversion 1; subst.
        match goal with H : l ++ _ = l ++ _ |- _ =>
          apply app_inv_head in H; subst end.
        now left.
    + split; [intros []|]. inversion 1; subst.
      assert (Re.strip_prefix l (l ++ t) = Some t) as E'
        by now apply strip_prefix_spec.
      congruence.
  - rewrite spans_spec. split.
    + intros (w & -> & Hw & ->). now constructor.
    + inversion 1; subst. eauto.
  - split.
    + destruct s as [|x s]; [intros []|].
      destruct (p x) eqn:Hx; [|intros []].
      intros H. apply spans_spec in H as (w & -> & Hw & ->).
      replace (S n + List.length w)%nat
        with (n + List.length (x :: w))%nat by (simpl; lia).
      apply (MPlus p n (x :: w) t); [discriminate|].
      simpl. now rewrite Hx.
    + inversion 1 as [| | |p' n' w s' Hne Hw| | | | |]; subst.
      destruct w as [|x w]; [contradiction|].
      simpl in Hw. apply andb_prop in Hw as [Hx Hw].
      simpl. rewrite Hx. apply spans_spec. exists w.
      repeat split; [assumption | simpl; lia].
  - rewrite in_app_iff, IH. simpl. split.
    + intros [H|[[= <- <-]|[]]]; [now apply MOptTake | apply MOptSkip].
    + inversion 1; subst; [right; now left | now left].
  - rewrite in_app_iff, IH1, IH2. split.
    + intros [H|H]; [now apply MAltL | now apply MAltR].
    + inversion 1; subst; auto.
  - rewrite in_flat_map. split.
    + intros (c1 & H1 & H2). apply IH1 in H1. apply IH2 in H2.
      econstructor; eauto.
    + inversion 1; subst. eexists. split; [apply IH1 | apply IH2]; eauto.
Qed.

Lemma matched_spec (r : Re.regex) (s : str) :
  Re.matched r s = true <-> exists c', Matches r (0%nat, s) c'.
Proof.
  unfold Re.matched, Re.match_.
  destruct (Re.run r (0%nat, s)) as [|c cs] eqn:E; simpl.
  - split; [discriminate|]. intros [c' H]. apply run_spec in H.
    rewrite E in H. destruct H.
  - split; [|reflexivity]. intros _. exists c. apply run_spec.
    rewrite E. now left.
Qed.

End Matcher.

(** ** The function pattern *)

Section FunctionPattern.

Variable unicode_alnum : char -> bool.

Lemma Matches_seq_inv r1 r2 c c'' :
  Matches (Re.Seq r1 r2) c c'' ->
  exists c', Matches r1 c c' /\ Matches r2 c' c''.
Proof. inversion 1; subst; eauto. Qed.

Lemma Matches_alt_inv r1 r2 c c' :
  Matches (Re.Alt r1 r2) c c' -> Matches r1 c c' \/ Matches r2 c c'.
Proof. inversion 1; subst; auto. Qed.

Lemma Matches_opt_inv r c c' :
  Matches (Re.Opt r) c c' -> c' = c \/ Matches r c c'.
Proof. inversion 1; subst; auto. Qed.

Lemma Matches_lit_inv l n s c' :
  Matches (Re.Lit l) (n, s) c' ->
  exists t, s = l ++ t /\ c' = ((n + List.length l)%nat, t).
Proof. inversion 1; subst; eauto. Qed.

Lemma Matches_star_inv p n s c' :
  Matches (Re.StarC p) (n, s) c' ->
  exists w t, s = w ++ t /\ forallb p w = true
              /\ c' = ((n + List.length w)%nat, t).
Proof. inversion 1; subst; eauto 6. Qed.

Lemma Matches_plus_inv p n s c' :
  Matches (Re.PlusC p) (n, s) c' ->
  exists w t, s = w ++ t /\ w <> [] /\ forallb p w = true
              /\ c' = ((n + List.length w)%nat, t).
Proof. inversion 1; subst; eauto 7. Qed.

Lemma Matches_bol_inv c c' : Matches Re.Bol c c' -> c' = c.
Proof. inversion 1; reflexivity. Qed.

Ltac invert_match :=
  repeat match goal with
    | H : Matches (Re.Seq _ _) _ _ |- _ =>
        apply Matches_seq_inv in H as (? & ? & ?)
    | H : Matches Re.Bol _ _ |- _ => apply Matches_bol_inv in H; subst
    | H : Matches (Re.Lit _) (_, _) _ |- _ =>
        apply Matches_lit_inv in H as (? & ? & ?); subst
    | H : Matches (Re.StarC _) (_, _) _ |- _ =>
        apply Matches_star_inv in H as (? & ? & ? & ? & ?); subst
    | H : Matches (Re.PlusC _) (_, _) _ |- _ =>
        apply Matches_plus_inv in H as (? & ? & ? & ? & ? & ?); subst
    | H : Matches (Re.Alt _ _) _ _ |- _ =>
        apply Matches_alt_inv in H as [?|?]
    | H : Matches (Re.Opt _) _ _ |- _ =>
        apply Matches_opt_inv in H as [?|?]; subst
    end.

(** The compiled pattern matches a line exactly when the line is a
    function opener in the sense of the specification. *)
Lemma is_function_spec (l : str) :
  is_function unicode_alnum l = true <-> func_opener unicode_alnum l.
Proof.
  unfold is_function. rewrite matched_spec. unfold func_pattern. split.
  - intros [c' H]. invert_match;
      match goal with
      | Hw : forallb isspace ?w = true |- func_opener _ (?w ++ ?b) =>
          exists w, b; split; [reflexivity|]; split; [exact Hw|]
      end.
    + left. apply startswith_spec. eauto.
    + right; left. apply startswith_spec. eauto.
    + right; right; left. apply startswith_spec. eauto.
    + right; right; right.
      match goal with
      | Hid : forallb (isword _) ?i = true |- context [_ ++ of_string "(" ++ ?t] =>
          exists i, t; repeat split; auto
      end.
    + right; right; right.
      match goal with
      | Hid : forallb (isword _) ?i = true |- context [_ ++ of_string "(" ++ ?t] =>
          exists i, t; repeat split; auto
      end.
  - intros (ws & body & -> & Hws & H).
    assert (forall Y c',
               Matches Y ((0 + List.length ws)%nat, body) c' ->
               exists c', Matches
                 (Re.Seq Re.Bol (Re.Seq (Re.StarC isspace) Y))
                 (0%nat, ws ++ body) c') as K.
    { intros Y c' HY. exists c'.
      eapply MSeq; [apply MBol|]. eapply MSeq; [now apply MStar|exact HY]. }
    destruct H as [H|[H|[H|(ident & tail & Hne & Hid & [->| ->])]]];
      try (apply startswith_spec in H as [t ->]).
    + eapply K. apply MAltL. apply MLit.
    + eapply K. apply MAltR, MAltL. apply MLit.
    + eapply K. apply MAltR, MAltR, MAltL. apply MLit.
    + eapply K. apply MAltR, MAltR, MAltR.
      eapply MSeq; [apply MLit|].
      eapply MSeq; [now apply MPlus|].
      eapply MSeq; [apply (MLit (of_string " = "))|].
      eapply MSeq; [apply MOptSkip|]. apply (MLit (of_string "(")).
    + eapply K. apply MAltR, MAltR, MAltR.
      eapply MSeq; [apply MLit|].
      eapply MSeq; [now apply MPlus|].
      eapply MSeq; [apply (MLit (of_string " = "))|].
      eapply MSeq; [apply MOptTake, (MLit (of_string "async "))|].
      apply (MLit (of_string "(")).
Qed.

End FunctionPattern.

(** ** Function openers are code *)

Section OpenersAreCode.

Variable unicode_alnum : char -> bool.

(** An opener starts, after its indentation, with the first letter of
    [def], [function], [async] or [const]. *)
Lemma opener_head (l : str) :
  func_opener unicode_alnum l ->
  exists c t, lstrip l = c :: t
              /\ (c = 100 \/ c = 102 \/ c = 97 \/ c = 99)%N.
Proof.
  intros (ws & body & -> & Hws & H). rewrite (lstrip_app _ _ Hws).
  destruct H as [H|[H|[H|(ident & tail & _ & _ & [->| ->])]]];
    try (apply startswith_spec in H as [t ->]);
    cbn [of_string list_ascii_of_string map app];
    (eexists; eexists; split; [apply lstrip_nonspace; reflexivity|]);
    cbn; auto.
Qed.

Lemma is_function_is_code (l : str) :
  is_function unicode_alnum l = true -> is_code l = true.
Proof.
  intros H. apply is_function_spec, opener_head in H as (c & t & Hl & Hc).
  destruct (strip_head _ _ _ Hl) as [t' Hs].
  unfold is_code. rewrite Hs.
  destruct Hc as [->|[->|[->| ->]]]; reflexivity.
Qed.

End OpenersAreCode.

(** C9. Every line the function pattern matches is a code line, so the
    reported function count is at most the reported code line count. *)
Theorem functions_le_code_lines (unicode_alnum : char -> bool) (lines : list str) :
  (forall l, is_function unicode_alnum l = true -> is_code l = true)
  /\ functions unicode_alnum lines <= code_lines lines.
Proof.
  split; [apply is_function_is_code|].
  apply count_mono, is_function_is_code.
Qed.

(** C6. The function counter counts exactly the lines that, after
    optional leading whitespace, go on with one of the fixed prefixes.
    The line [const makeThing = async (x) => {] is counted once; the line
    [let makeThing = (x) => {] is not counted, nor is any line that goes
    on with [let ] or [var ]. *)
Theorem function_counter_fixed_prefixes (unicode_alnum : char -> bool) :
  let newline := String "010" "" in
  let const_line := of_string ("const makeThing = async (x) => {" ++ newline) in
  let let_line := of_string ("let makeThing = (x) => {" ++ newline) in
  (forall l, is_function unicode_alnum l = true <-> func_opener unicode_alnum l)
  /\ (forall l lines,
         functions unicode_alnum (l :: lines) =
         (if is_function unicode_alnum l then 1 else 0)
         + functions unicode_alnum lines)
  /\ functions unicode_alnum [] = 0
  /\ is_function unicode_alnum const_line = true
  /\ is_function unicode_alnum let_line = false
  /\ functions unicode_alnum [const_line] = 1
  /\ functions unicode_alnum [let_line] = 0
  /\ functions unicode_alnum [let_line; const_line; let_line] = 1
  /\ (forall l rest,
         lstrip l = of_string "let " ++ rest
         \/ lstrip l = of_string "var " ++ rest ->
         is_function unicode_alnum l = false).
Proof.
  intros newline const_line let_line.
  split; [apply is_function_spec|].
  split.
  { intros l lines. unfold functions. rewrite count_cons.
    now destruct (is_function unicode_alnum l). }
  do 6 (split; [reflexivity|]).
  intros l rest H.
  destruct (is_function unicode_alnum l) eqn:E; [exfalso|reflexivity].
  apply is_function_spec, opener_head in E as (c & t & Hl & Hc).
  rewrite Hl in H.
  destruct H as [H|H]; injection H as -> _;
    destruct Hc as [Hc|[Hc|[Hc|Hc]]]; discriminate Hc.
Qed.

(** ** Floats: rounding, range and the ints they hold exactly *)

Section Binary64.

Lemma fexp_eq (e : Z) :
  fexp Float.prec Float.emax e = Z.max (e - 53) (-1074).
Proof. reflexivity. Qed.

Lemma digits2_pos_size (p : positive) : digits2_pos p = Pos.size p.
Proof. induction p; simpl; congruence. Qed.

Lemma Zdigits2_log2 (m : Z) : 0 < m -> Zdigits2 m = Z.log2 m + 1.
Proof.
  destruct m as [|p|p]; try lia. intros _. simpl.
  rewrite digits2_pos_size. destruct p; simpl; lia.
Qed.

Lemma Zdigits2_nonneg (m : Z) : 0 <= Zdigits2 m.
Proof. destruct m; simpl; lia. Qed.

(** A number has at most [d] binary digits when it is below [2^d]. *)
Lemma Zdigits2_le_iff (m d : Z) :
  0 <= m -> 0 <= d -> (Zdigits2 m <= d <-> m < 2 ^ d).
Proof.
  intros Hm Hd. destruct (Z.eq_dec m 0) as [->|Hne].
  - simpl. pose proof (Z.pow_pos_nonneg 2 d) as Hp. lia.
  - rewrite Zdigits2_log2 by lia.
    pose proof (Z.log2_spec m ltac:(lia)) as [Hlo Hhi].
    pose proof (Z.log2_nonneg m) as Hnn.
    split; intros H.
    + eapply Z.lt_le_trans; [exact Hhi|].
      apply Z.pow_le_mono_r; lia.
    + destruct (Z.le_gt_cases (Z.log2 m + 1) d) as [|Hgt]; [assumption|].
      exfalso. assert (2 ^ d <= 2 ^ Z.log2 m) by (apply Z.pow_le_mono_r; lia).
      lia.
Qed.

Lemma Zdigits2_bound (m : Z) : 0 <= m -> m < 2 ^ Zdigits2 m.
Proof.
  intros Hm. apply Zdigits2_le_iff; auto using Zdigits2_nonneg. lia.
Qed.

Lemma Zdigits2_unique (m d : Z) :
  2 ^ (d - 1) <= m < 2 ^ d -> 0 < d -> Zdigits2 m = d.
Proof.
  intros [Hlo Hhi] Hd.
  assert (0 < m) by (pose proof (Z.pow_pos_nonneg 2 (d - 1)); lia).
  rewrite Zdigits2_log2 by assumption.
  rewrite (Z.log2_unique m (d - 1)); try lia.
  replace (Z.succ (d - 1)) with d by lia. lia.
Qed.

Lemma iter_pos_nat {A} (f : A -> A) (p : positive) (x : A) :
  iter_pos f p x = Nat.iter (Pos.to_nat p) f x.
Proof.
  revert x. induction p as [p IH|p IH|]; intros x; cbn [iter_pos].
  - rewrite !IH, Pos2Nat.inj_xI.
    replace (S (2 * Pos.to_nat p)) with (Pos.to_nat p + (Pos.to_nat p + 1))%nat by lia.
    rewrite !Nat.iter_add. reflexivity.
  - rewrite !IH, Pos2Nat.inj_xO.
    replace (2 * Pos.to_nat p)%nat with (Pos.to_nat p + Pos.to_nat p)%nat by lia.
    rewrite Nat.iter_add. reflexivity.
  - reflexivity.
Qed.

Lemma shr_1_m (mrs : shr_record) :
  0 <= shr_m mrs -> shr_m (shr_1 mrs) = shr_m mrs / 2.
Proof.
  destruct mrs as [m r s]. simpl. intros Hm.
  rewrite <- Z.div2_div.
  destruct m as [|[p|p|]|]; try reflexivity. lia.
Qed.

Lemma iter_shr_1_m (k : nat) (mrs : shr_record) :
  0 <= shr_m mrs ->
  shr_m (Nat.iter k shr_1 mrs) = shr_m mrs / 2 ^ Z.of_nat k.
Proof.
  intros Hm. induction k as [|k IH].
  - simpl. now rewrite Z.div_1_r.
  - rewrite Nat.iter_succ, shr_1_m.
    + rewrite IH, Nat2Z.inj_succ, Z.pow_succ_r by lia.
      rewrite Z.div_div by lia. f_equal. lia.
    + rewrite IH. apply Z.div_pos; lia.
Qed.

Lemma iter_shr_1_exact (k : nat) (m : Z) :
  0 <= m ->
  Nat.iter k shr_1 {| shr_m := m * 2 ^ Z.of_nat k; shr_r := false; shr_s := false |}
  = {| shr_m := m; shr_r := false; shr_s := false |}.
Proof.
  revert m. induction k as [|k IH]; intros m Hm.
  - simpl. f_equal. lia.
  - rewrite Nat.iter_succ.
    replace (m * 2 ^ Z.of_nat (S k)) with ((2 * m) * 2 ^ Z.of_nat k)
      by (rewrite Nat2Z.inj_succ, Z.pow_succ_r; lia).
    rewrite IH by lia. now destruct m.
Qed.

Lemma shr_spec (mrs : shr_record) (e n : Z) :
  0 <= shr_m mrs ->
  shr_m (fst (shr mrs e n)) = shr_m mrs / 2 ^ Z.max n 0
  /\ snd (shr mrs e n) = e + Z.max n 0.
Proof.
  intros Hm. destruct n as [|p|p]; simpl.
  - rewrite Z.div_1_r. lia.
  - rewrite iter_pos_nat, iter_shr_1_m, positive_nat_Z by assumption.
    split; reflexivity.
  - rewrite Z.div_1_r. lia.
Qed.

Lemma shr_exact (m e n : Z) :
  0 <= m -> 0 <= n ->
  shr {| shr_m := m * 2 ^ n; shr_r := false; shr_s := false |} e n
  = ({| shr_m := m; shr_r := false; shr_s := false |}, e + n).
Proof.
  intros Hm Hn. destruct n as [|p|p]; [| |lia].
  - simpl. rewrite Z.mul_1_r, Z.add_0_r. reflexivity.
  - unfold shr. rewrite iter_pos_nat.
    rewrite <- (positive_nat_Z p) at 1.
    now rewrite iter_shr_1_exact.
Qed.

Lemma shr_record_of_loc_m (m : Z) (l : location) :
  shr_m (shr_record_of_loc m l) = m.
Proof. destruct l as [|[| |]]; reflexivity. Qed.

Lemma round_nearest_even_bounds (m : Z) (l : location) :
  m <= round_nearest_even m l <= m + 1.
Proof.
  destruct l as [|[| |]]; simpl; try lia. destruct (Z.even m); lia.
Qed.

(** Rounding a number that fits the mantissa leaves it as it is. *)
Lemma binary_round_aux_exact (s : bool) (M : positive) (k e : Z) :
  2 ^ 52 <= Zpos M < 2 ^ 53 -> 0 <= k -> -1074 <= e + k <= 971 ->
  binary_round_aux Float.prec Float.emax s (Zpos M * 2 ^ k) e loc_Exact
  = S754_finite s M (e + k).
Proof.
  intros HM Hk He.
  assert (Zdigits2 (Zpos M * 2 ^ k) = 53 + k) as D.
  { apply Zdigits2_unique; [|lia].
    replace (53 + k - 1) with (52 + k) by lia.
    rewrite !Z.pow_add_r by lia.
    pose proof (Z.pow_pos_nonneg 2 k ltac:(lia) Hk). nia. }
  assert (Zdigits2 (Zpos M) = 53) as D' by (apply Zdigits2_unique; lia).
  unfold binary_round_aux, shr_fexp. rewrite D, fexp_eq.
  replace (Z.max (53 + k + e - 53) (-1074) - e) with k by lia.
  cbn [shr_record_of_loc]. rewrite shr_exact by lia.
  cbn [shr_m loc_of_shr_record round_nearest_even].
  rewrite D', fexp_eq.
  replace (Z.max (53 + (e + k) - 53) (-1074) - (e + k)) with 0 by lia.
  cbn [shr shr_m].
  replace (e + k <=? Float.emax - Float.prec) with true; [reflexivity|].
  symmetry. apply Z.leb_le. unfold Float.emax, Float.prec. lia.
Qed.

Lemma Zdigits2_mono (a b : Z) : 0 <= a <= b -> Zdigits2 a <= Zdigits2 b.
Proof.
  intros H. apply Zdigits2_le_iff; [lia|apply Zdigits2_nonneg|].
  pose proof (Zdigits2_bound b ltac:(lia)). lia.
Qed.

Lemma Zdigits2_succ (m : Z) : 0 <= m -> Zdigits2 (m + 1) <= Zdigits2 m + 1.
Proof.
  intros H. pose proof (Zdigits2_nonneg m) as Hd.
  apply Zdigits2_le_iff; [lia|lia|].
  pose proof (Zdigits2_bound m H). rewrite Z.pow_add_r by lia.
  pose proof (Z.pow_pos_nonneg 2 (Zdigits2 m) ltac:(lia) Hd). lia.
Qed.

Lemma Zdigits2_mul_pow2 (m k : Z) :
  0 <= m -> 0 <= k -> Zdigits2 (m * 2 ^ k) <= Zdigits2 m + k.
Proof.
  intros Hm Hk. pose proof (Zdigits2_nonneg m) as Hd.
  pose proof (Z.pow_pos_nonneg 2 k ltac:(lia) Hk) as Hp.
  apply Zdigits2_le_iff; [nia|lia|].
  rewrite Z.pow_add_r by lia.
  pose proof (Zdigits2_bound m Hm). nia.
Qed.

Lemma Zdigits2_div_pow2 (m n : Z) :
  0 <= m -> 0 <= n -> Zdigits2 (m / 2 ^ n) <= Z.max (Zdigits2 m - n) 0.
Proof.
  intros Hm Hn. pose proof (Zdigits2_nonneg m) as Hd.
  pose proof (Z.pow_pos_nonneg 2 n ltac:(lia) Hn) as Hp.
  pose proof (Zdigits2_bound m Hm) as Hb.
  destruct (Z.le_gt_cases n (Zdigits2 m)) as [Hle|Hgt].
  - apply Zdigits2_le_iff; [apply Z.div_pos; lia|lia|].
    apply Z.div_lt_upper_bound; [lia|].
    rewrite Z.max_l by lia. rewrite <- Z.pow_add_r by lia.
    now replace (n + (Zdigits2 m - n)) with (Zdigits2 m) by lia.
  - rewrite Z.div_small; [simpl; lia|]. split; [lia|].
    eapply Z.lt_le_trans; [exact Hb|]. apply Z.pow_le_mono_r; lia.
Qed.

Lemma Zdigits2_mul (a b : Z) :
  0 <= a -> 0 <= b -> Zdigits2 (a * b) <= Zdigits2 a + Zdigits2 b.
Proof.
  intros Ha Hb. pose proof (Zdigits2_nonneg a). pose proof (Zdigits2_nonneg b).
  apply Zdigits2_le_iff; [nia|lia|].
  rewrite Z.pow_add_r by lia.
  pose proof (Zdigits2_bound a Ha). pose proof (Zdigits2_bound b Hb). nia.
Qed.

(** Rounding a number of moderate size gives a zero or a finite float
    of the same sign, at most one binary digit larger. *)
Lemma binary_round_aux_range (s : bool) (m e : Z) (l : location) :
  0 <= m -> e <= 971 -> Zdigits2 m + e <= 1023 ->
  match binary_round_aux Float.prec Float.emax s m e l with
  | S754_zero s' => s' = s
  | S754_finite s' m' e' =>
      s' = s /\ e' <= 971
      /\ Zpos (digits2_pos m') + e' <= Z.max (Zdigits2 m + e + 1) (-1073)
  | _ => False
  end.
Proof.
  intros Hm He Hd. unfold binary_round_aux, shr_fexp.
  rewrite !fexp_eq.
  set (n1 := Z.max (Zdigits2 m + e - 53) (-1074) - e).
  destruct (shr (shr_record_of_loc m l) e n1) as [mrs1 e1] eqn:E1.
  pose proof (shr_spec (shr_record_of_loc m l) e n1) as [A1 B1];
    [rewrite shr_record_of_loc_m; exact Hm|].
  rewrite E1 in A1, B1. rewrite shr_record_of_loc_m in A1.
  cbn [fst snd] in A1, B1.
  rewrite fexp_eq.
  set (m2 := round_nearest_even (shr_m mrs1) (loc_of_shr_record mrs1)).
  pose proof (round_nearest_even_bounds (shr_m mrs1) (loc_of_shr_record mrs1))
    as Hm2. fold m2 in Hm2.
  assert (0 <= shr_m mrs1) as Hm1
      by (rewrite A1; apply Z.div_pos; [lia|apply Z.pow_pos_nonneg; lia]).
  set (n2 := Z.max (Zdigits2 m2 + e1 - 53) (-1074) - e1).
  destruct (shr (shr_record_of_loc m2 loc_Exact) e1 n2) as [mrs3 e3] eqn:E3.
  pose proof (shr_spec (shr_record_of_loc m2 loc_Exact) e1 n2) as [A3 B3];
    [cbn [shr_record_of_loc shr_m]; lia|].
  rewrite E3 in A3, B3. cbn [fst snd shr_record_of_loc shr_m] in A3, B3.
  pose proof (Zdigits2_nonneg m) as N0.
  pose proof (Zdigits2_div_pow2 m (Z.max n1 0) Hm ltac:(lia)) as D1.
  rewrite <- A1 in D1.
  assert (Zdigits2 m2 <= Zdigits2 (shr_m mrs1) + 1) as D2.
  { etransitivity; [apply (Zdigits2_mono m2 (shr_m mrs1 + 1)); lia|].
    now apply Zdigits2_succ. }
  pose proof (Zdigits2_div_pow2 m2 (Z.max n2 0) ltac:(lia) ltac:(lia)) as D3.
  rewrite <- A3 in D3.
  pose proof (Zdigits2_nonneg (shr_m mrs1)) as N1.
  pose proof (Zdigits2_nonneg m2) as N2.
  destruct (shr_m mrs3) as [|m'|m'] eqn:E.
  - reflexivity.
  - cbn [Zdigits2] in D3.
    assert (e3 <= 971) as He3 by lia.
    replace (e3 <=? Float.emax - Float.prec) with true
      by (symmetry; apply Z.leb_le; unfold Float.emax, Float.prec; lia).
    repeat split; lia.
  - assert (0 <= Z.neg m'); [|lia].
    rewrite A3. apply Z.div_pos; [lia|apply Z.pow_pos_nonneg; lia].
Qed.

(** The quotient of two ints of moderate size is a zero or a finite,
    non-negative float. *)
Lemma div_int_range (c d : Z) :
  0 <= c -> 0 < d -> Zdigits2 c <= 1000 ->
  match Float.div_int c d with
  | S754_zero s' => s' = false
  | S754_finite s' m' e' =>
      s' = false /\ e' <= 971
      /\ Zpos (digits2_pos m') + e' <= Zdigits2 c + 1
  | _ => False
  end.
Proof.
  intros Hc Hd Hdig.
  destruct d as [|pd|pd]; try lia.
  destruct c as [|pc|pc]; try lia; [reflexivity|].
  unfold Float.div_int, Float.exact_of_int, SFdiv, SFdiv_core_binary.
  rewrite fexp_eq.
  set (d1 := Zdigits2 (Zpos pc)) in *.
  set (d2 := Zdigits2 (Zpos pd)).
  set (e' := Z.min (Z.max (d1 + 0 - (d2 + 0) - 53) (-1074)) (0 - 0)).
  set (m' := match 0 - 0 - e' with
             | 0 => Z.pos pc
             | Z.pos _ => Z.shiftl (Z.pos pc) (0 - 0 - e')
             | Z.neg _ => 0
             end).
  assert (m' = Zpos pc * 2 ^ (- e')) as Hm'.
  { subst m'. assert (e' <= 0) by (subst e'; lia).
    replace (0 - 0 - e') with (- e') by lia.
    destruct (- e') as [|p|p] eqn:E; [lia| |lia].
    rewrite Z.shiftl_mul_pow2; lia. }
  destruct (Z.div_eucl m' (Z.pos pd)) as [q r] eqn:E.
  assert (q = m' / Zpos pd) as Hq by (unfold Z.div; now rewrite E).
  assert (e' <= 0) as He' by (subst e'; lia).
  assert (0 <= m') as Hm0
      by (rewrite Hm'; pose proof (Z.pow_pos_nonneg 2 (- e')); nia).
  assert (0 <= q <= m') as Hqb.
  { rewrite Hq. split; [apply Z.div_pos; lia|].
    apply Z.div_le_upper_bound; nia. }
  pose proof (Zdigits2_mono q m' Hqb) as M1.
  pose proof (Zdigits2_mul_pow2 (Zpos pc) (- e') ltac:(lia) ltac:(lia)) as M2.
  rewrite <- Hm' in M2. fold d1 in M2.
  pose proof (binary_round_aux_range (xorb false false) q e'
                (new_location (Z.pos pd) r)
                ltac:(lia) ltac:(lia) ltac:(lia)) as R.
  assert (1 <= d1) by (subst d1; simpl; lia).
  destruct (binary_round_aux _ _ _ q e' _) as [s'|s'| |s' mz ez];
    try assumption.
  destruct R as (-> & Hez & Hdz). repeat split; [assumption|lia].
Qed.

Lemma of_int_100 : Float.of_int 100 = S754_finite false 7036874417766400 (-46).
Proof. reflexivity. Qed.

(** A hundred times a non-negative float of moderate size. *)
Lemma mul_100_range (x : Float.float) :
  match x with
  | S754_zero s => s = false
  | S754_finite s m e =>
      s = false /\ e <= 971 /\ Zpos (digits2_pos m) + e <= 1001
  | _ => False
  end ->
  Float.mul x (Float.of_int 100) = S754_zero false
  \/ exists m e, Float.mul x (Float.of_int 100) = S754_finite false m e.
Proof.
  rewrite of_int_100. destruct x as [s|s| |s m e]; try contradiction.
  - intros ->. now left.
  - intros (-> & He & Hd).
    unfold Float.mul, SFmul.
    pose proof (Zdigits2_mul (Zpos m) 7036874417766400 ltac:(lia) ltac:(lia))
      as Hmul.
    change (Zdigits2 7036874417766400) with 53 in Hmul.
    change (Zdigits2 (Zpos m)) with (Zpos (digits2_pos m)) in Hmul.
    pose proof (binary_round_aux_range (xorb false false)
                  (Zpos (m * 7036874417766400)) (e + -46) loc_Exact
                  ltac:(lia) ltac:(lia)) as R.
    rewrite Pos2Z.inj_mul in R. specialize (R ltac:(lia)).
    rewrite <- Pos2Z.inj_mul in R.
    destruct (binary_round_aux _ _ _ _ _ _) as [s'|s'| |s' mz ez];
      try contradiction.
    + left. now rewrite R.
    + right. destruct R as (-> & _). eauto.
Qed.

Lemma Zdigits2_lower (m : Z) : 0 < m -> 2 ^ (Zdigits2 m - 1) <= m.
Proof.
  intros H. rewrite Zdigits2_log2 by assumption.
  replace (Z.log2 m + 1 - 1) with (Z.log2 m) by lia.
  now apply Z.log2_spec.
Qed.

Lemma pos_iter_xO (mx d : positive) :
  Zpos (Pos.iter xO mx d) = Zpos mx * 2 ^ Zpos d.
Proof.
  induction d as [|d IH] using Pos.peano_ind.
  - change (Pos.iter xO mx 1) with (mx~0)%positive. lia.
  - rewrite Pos.iter_succ, Pos2Z.inj_xO, IH, Pos2Z.inj_succ, Z.pow_succ_r; lia.
Qed.

Lemma shl_align_spec (mx : positive) (ex ex' : Z) :
  ex' <= ex ->
  exists mz, shl_align mx ex ex' = (mz, ex')
             /\ Zpos mz = Zpos mx * 2 ^ (ex - ex').
Proof.
  intros H. unfold shl_align. destruct (ex' - ex) as [|d|d] eqn:E; [|lia|].
  - exists mx. replace ex' with ex by lia. rewrite Z.sub_diag. split; [reflexivity|lia].
  - eexists. split; [reflexivity|]. rewrite pos_iter_xO. f_equal. f_equal. lia.
Qed.

(** The mantissa and exponent of the float that holds a small positive
    int. *)
Lemma small_int_mantissa (n : Z) :
  0 < n < 2 ^ 53 ->
  exists M, Zpos M = n * 2 ^ (53 - Zdigits2 n) /\ 2 ^ 52 <= Zpos M < 2 ^ 53
            /\ 1 <= Zdigits2 n <= 53.
Proof.
  intros [Hlo Hhi].
  pose proof (Zdigits2_lower n Hlo) as L.
  pose proof (Zdigits2_bound n ltac:(lia)) as U.
  assert (Zdigits2 n <= 53) as D53 by (apply Zdigits2_le_iff; lia).
  assert (1 <= Zdigits2 n) as D1 by (destruct n; simpl; lia).
  set (D := Zdigits2 n) in *.
  pose proof (Z.pow_pos_nonneg 2 (53 - D) ltac:(lia) ltac:(lia)) as P.
  assert (2 ^ 52 = 2 ^ (D - 1) * 2 ^ (53 - D)) as E52
      by (rewrite <- Z.pow_add_r by lia; f_equal; lia).
  assert (2 ^ 53 = 2 ^ D * 2 ^ (53 - D)) as E53
      by (rewrite <- Z.pow_add_r by lia; f_equal; lia).
  exists (Z.to_pos (n * 2 ^ (53 - D))).
  rewrite Z2Pos.id by nia. repeat split; try lia.
  - rewrite E52. nia.
  - rewrite E53. nia.
Qed.

Lemma of_int_small (n : Z) (M : positive) :
  0 < n < 2 ^ 53 -> Zpos M = n * 2 ^ (53 - Zdigits2 n) ->
  Float.of_int n = S754_finite false M (Zdigits2 n - 53).
Proof.
  intros Hn HM.
  destruct (small_int_mantissa n Hn) as (M' & HM' & HMb & HD).
  assert (M' = M) as -> by lia.
  destruct n as [|p|p]; try lia.
  unfold Float.of_int, binary_normalize, binary_round. rewrite fexp_eq.
  change (Zpos (digits2_pos p)) with (Zdigits2 (Zpos p)).
  destruct (shl_align_spec p 0 (Z.max (Zdigits2 (Zpos p) + 0 - 53) (-1074))
              ltac:(lia)) as (mz & -> & Hmz).
  replace (0 - Z.max (Zdigits2 (Z.pos p) + 0 - 53) (-1074))
    with (53 - Zdigits2 (Zpos p)) in Hmz by lia.
  assert (mz = M) as -> by lia.
  replace (Zpos M) with (Zpos M * 2 ^ 0) by lia.
  rewrite binary_round_aux_exact by lia.
  f_equal. lia.
Qed.

Lemma div_eucl_1_r (a : Z) : Z.div_eucl a 1 = (a, 0).
Proof.
  pose proof (Z.div_1_r a) as Hq. pose proof (Z.mod_1_r a) as Hr.
  unfold Z.div, Z.modulo in *. destruct (Z.div_eucl a 1). congruence.
Qed.

(** Dividing an int by one converts it to a float. *)
Lemma div_int_one (n : Z) : 0 < n -> Float.div_int n 1 = Float.of_int n.
Proof.
  intros Hn. destruct n as [|p|p]; try lia.
  unfold Float.div_int, Float.exact_of_int, SFdiv, SFdiv_core_binary.
  rewrite fexp_eq. change (Zdigits2 1) with 1.
  set (D := Zdigits2 (Zpos p)).
  assert (1 <= D) as D1 by (subst D; simpl; lia).
  destruct (Z.le_gt_cases 54 D) as [Hbig|Hsmall].
  - (* no shift on either side *)
    replace (Z.min (Z.max (D + 0 - (1 + 0) - 53) (-1074)) (0 - 0)) with 0 by lia.
    cbn [Z.sub Z.opp Z.add]. rewrite div_eucl_1_r.
    unfold Float.of_int, binary_normalize, binary_round, shl_align.
    rewrite fexp_eq. fold (Zdigits2 (Zpos p)). fold D.
    destruct (Z.max (D + 0 - 53) (-1074) - 0) eqn:E; try lia.
    reflexivity.
  - assert (0 < Zpos p < 2 ^ 53) as Hr.
    { split; [lia|]. apply Zdigits2_le_iff; fold D; lia. }
    destruct (small_int_mantissa _ Hr) as (M & HM & HMb & HD). fold D in HM, HD.
    rewrite (of_int_small _ M Hr HM). fold D.
    replace (Z.min (Z.max (D + 0 - (1 + 0) - 53) (-1074)) (0 - 0))
      with (D - 54) by lia.
    replace (0 - 0 - (D - 54)) with (54 - D) by lia.
    destruct (54 - D) as [|s|s] eqn:E; try lia. rewrite <- E.
    rewrite Z.shiftl_mul_pow2 by lia.
    rewrite div_eucl_1_r.
    replace (Zpos p * 2 ^ (54 - D)) with (Zpos M * 2 ^ 1)
      by (rewrite HM; replace (54 - D) with (53 - D + 1) by lia;
          rewrite Z.pow_add_r by lia; lia).
    change (new_location 1 0) with loc_Exact.
    rewrite binary_round_aux_exact by lia. f_equal. lia.
Qed.

(** A hundred times a small int, as long as the product is small
    too, is the product exactly. *)
Lemma mul_of_int_100 (n : Z) :
  0 < n -> 100 * n < 2 ^ 53 ->
  Float.mul (Float.of_int n) (Float.of_int 100) = Float.of_int (100 * n).
Proof.
  intros Hn Hv.
  destruct (small_int_mantissa n ltac:(lia)) as (M & HM & HMb & HD).
  destruct (small_int_mantissa (100 * n) ltac:(lia)) as (V & HV & HVb & HDV).
  rewrite (of_int_small n M), (of_int_small (100 * n) V), of_int_100
    by (assumption || lia).
  pose proof (Zdigits2_mono n (100 * n) ltac:(lia)) as Hmono.
  set (D := Zdigits2 n) in *. set (DV := Zdigits2 (100 * n)) in *.
  unfold Float.mul, SFmul. cbn [xorb].
  replace (Zpos (M * 7036874417766400)) with (Zpos V * 2 ^ (46 + DV - D)).
  - rewrite binary_round_aux_exact by lia. f_equal. lia.
  - rewrite Pos2Z.inj_mul, HM, HV.
    change 7036874417766400 with (100 * 2 ^ 46).
    replace (53 - D) with ((53 - DV) + (DV - D)) by lia.
    replace (46 + DV - D) with ((DV - D) + 46) by lia.
    rewrite !Z.pow_add_r by lia. ring.
Qed.

Lemma str_of_digit (d : Z) :
  0 <= d <= 9 -> str_of_int d = [Z.to_N (48 + d)].
Proof.
  intros H.
  assert (d = 0 \/ d = 1 \/ d = 2 \/ d = 3 \/ d = 4
          \/ d = 5 \/ d = 6 \/ d = 7 \/ d = 8 \/ d = 9) as C by lia.
  repeat (destruct C as [->|C]; [reflexivity|]). now subst.
Qed.

(** A small positive int as a float is printed as the int, the point
    and a zero. *)
Lemma format_of_int (n : Z) :
  0 < n < 2 ^ 53 ->
  Float.format_1f (Float.of_int n) = str_of_int n ++ of_string ".0".
Proof.
  intros Hn.
  destruct (small_int_mantissa n Hn) as (M & HM & HMb & HD).
  rewrite (of_int_small n M Hn HM).
  set (D := Zdigits2 n) in *.
  assert (Float.tenths M (D - 53) = n * 10) as Ht.
  { unfold Float.tenths. destruct (D - 53) as [|e|e] eqn:E; try lia.
    - rewrite HM. replace (53 - D) with 0 by lia. lia.
    - unfold Float.round_half_even.
      replace (53 - D) with (Zpos e) in HM by lia.
      pose proof (Z.pow_pos_nonneg 2 (Zpos e) ltac:(lia) ltac:(lia)) as P.
      replace (Zpos M * 10) with (n * 10 * 2 ^ Zpos e) by lia.
      rewrite Z_div_mult, Z_mod_mult by lia.
      destruct (2 * 0 ?= 2 ^ Zpos e) eqn:C; try reflexivity.
      + apply Z.compare_eq in C. lia.
      + apply Z.compare_gt_iff in C. lia. }
  unfold Float.format_1f. rewrite Ht. cbn [Float.sign_str app].
  rewrite Z_div_mult, Z_mod_mult by lia. reflexivity.
Qed.

Lemma round_half_even_nonneg (num den : Z) :
  0 <= num -> 0 < den -> 0 <= Float.round_half_even num den.
Proof.
  intros Hn Hd. unfold Float.round_half_even.
  pose proof (Z.div_pos num den Hn Hd).
  destruct (2 * (num mod den) ?= den); [destruct (Z.even _)| |]; lia.
Qed.

Lemma tenths_nonneg (m : positive) (e : Z) : 0 <= Float.tenths m e.
Proof.
  unfold Float.tenths. destruct e as [|p|p].
  - lia.
  - pose proof (Z.pow_pos_nonneg 2 (Zpos p) ltac:(lia) ltac:(lia)). nia.
  - apply round_half_even_nonneg; [lia|]. apply Z.pow_pos_nonneg; lia.
Qed.

(** A non-negative finite float is printed with one decimal place. *)
Lemma format_1f_one_decimal (x : Float.float) :
  (x = S754_zero false \/ exists m e, x = S754_finite false m e) ->
  one_decimal (Float.format_1f x).
Proof.
  intros [->|(m & e & ->)].
  - exists 0, 0. repeat split; lia.
  - pose proof (tenths_nonneg m e) as Ht.
    exists (Float.tenths m e / 10), (Float.tenths m e mod 10).
    pose proof (Z.mod_pos_bound (Float.tenths m e) 10 ltac:(lia)).
    split; [apply Z.div_pos; lia|]. split; [lia|].
    unfold Float.format_1f. cbn [Float.sign_str app].
    now rewrite (str_of_digit (Float.tenths m e mod 10)) by lia.
Qed.

(** The comment ratio of a file a list can hold is a non-negative
    finite float, and the division that computes it does not
    overflow. *)
Lemma ratio_finite (comment code : Z) :
  0 <= comment <= maxsize ->
  Float.is_finite (Float.div_int comment (Z.max code 1)) = true
  /\ (ratio comment code = S754_zero false
      \/ exists m e, ratio comment code = S754_finite false m e).
Proof.
  intros Hc.
  assert (Zdigits2 comment <= 63) as Hd
      by (apply Zdigits2_le_iff; unfold maxsize in Hc; lia).
  pose proof (div_int_range comment (Z.max code 1) ltac:(lia) ltac:(lia)
                ltac:(lia)) as R.
  unfold ratio.
  destruct (Float.div_int comment (Z.max code 1)) as [s|s| |s m e] eqn:E;
    try contradiction; (split; [reflexivity|]); apply mul_100_range.
  - exact R.
  - destruct R as (-> & He & Hm). repeat split; lia.
Qed.

End Binary64.

(** ** Runs of the analysis and of the script *)

Section Runs.

Variable unicode_alnum : char -> bool.
Variable fs : filesystem.

Lemma after_nil (w : world) (path : str) :
  {| stdout := stdout w; opened := opened w ++ [path] |} = after w path [].
Proof. unfold after. now rewrite app_nil_r. Qed.

(** A failed read ends the analysis before anything is written. *)
Lemma analyze_file_read_error (path : str) (e : exn) (w : world) :
  fs path = Raise e ->
  analyze_file unicode_alnum fs path w = (Raise e, after w path []).
Proof.
  intros H. unfold analyze_file, bind, open_readlines. rewrite H.
  now rewrite after_nil.
Qed.

Lemma filter_all_blank (lines : list str) :
  (forall l, In l lines -> is_blank l = true) ->
  filter (fun l => truthy (strip l)) lines = [].
Proof.
  induction lines as [|l ls IH]; intros Hall; [reflexivity|].
  simpl. pose proof (Hall l (or_introl eq_refl)) as Hl.
  unfold is_blank in Hl. apply negb_true_iff in Hl. rewrite Hl.
  apply IH. intros l' Hl'. apply Hall. now right.
Qed.

Lemma max_indent_blank (lines : list str) :
  lines <> [] -> (forall l, In l lines -> is_blank l = true) ->
  max_indent lines = raise ValueError.
Proof.
  intros Hne Hall. destruct lines as [|l0 lines]; [contradiction|].
  unfold max_indent. now rewrite filter_all_blank.
Qed.

Lemma fold_left_max_spec (xs : list Z) (x : Z) :
  let r := fold_left Z.max xs x in
  In r (x :: xs) /\ forall y, In y (x :: xs) -> y <= r.
Proof.
  revert x. induction xs as [|a xs IH]; intros x; simpl.
  - split; [now left|]. intros y [->|[]]. lia.
  - destruct (IH (Z.max x a)) as [Hin Hle]. simpl in Hin, Hle. split.
    + destruct Hin as [Hin|Hin]; [|now right; right].
      rewrite <- Hin. destruct (Z.max_spec x a) as [[_ ->]|[_ ->]]; auto.
    + intros y [->|[->|Hy]].
      * specialize (Hle (Z.max y a) (or_introl eq_refl)). lia.
      * specialize (Hle (Z.max x y) (or_introl eq_refl)). lia.
      * apply Hle. now right.
Qed.

(** With a line that is not blank, the maximal indentation is that of
    some such line and is at least that of every such line. *)
Lemma max_indent_spec (lines : list str) (l0 : str) :
  In l0 lines -> is_blank l0 = false ->
  exists mi, max_indent lines = ret mi
    /\ (exists l, In l lines /\ is_blank l = false /\ indent l = mi)
    /\ (forall l, In l lines -> is_blank l = false -> indent l <= mi).
Proof.
  intros Hin Hnb.
  assert (forall l, In l (filter (fun l => truthy (strip l)) lines)
                    <-> In l lines /\ is_blank l = false) as F.
  { intros l. rewrite filter_In. unfold is_blank. rewrite negb_false_iff.
    reflexivity. }
  destruct lines as [|h lines']; [destruct Hin|].
  unfold max_indent. set (ls := h :: lines') in *.
  destruct (filter (fun l => truthy (strip l)) ls) as [|a nb] eqn:E.
  - exfalso. apply (F l0). auto.
  - cbn [map Py.max].
    pose proof (fold_left_max_spec (map indent nb) (indent a)) as [Hr Hle].
    eexists. split; [reflexivity|]. split.
    + change (indent a :: map indent nb) with (map indent (a :: nb)) in Hr.
      apply in_map_iff in Hr as (l & Hl & Hlin).
      exists l. apply F in Hlin as [? ?]. auto.
    + intros l Hl Hb. apply Hle.
      change (indent a :: map indent nb) with (map indent (a :: nb)).
      apply in_map. apply F. auto.
Qed.

(** The whole run on a file that is read and whose maximal
    indentation is defined. *)
Lemma analyze_file_report (path : str) (lines : list str) (mi : Z) (w : world) :
  fs path = Ok lines -> max_indent lines = ret mi ->
  total_lines lines <= maxsize ->
  analyze_file unicode_alnum fs path w =
  (Ok tt,
   after w path
     (report path (total_lines lines) (code_lines lines)
        (comment_lines lines) (blank_lines lines)
        (functions unicode_alnum lines) mi
        (Float.format_1f (ratio (comment_lines lines) (code_lines lines))))).
Proof.
  intros Hfs Hmi Hlen.
  assert (0 <= comment_lines lines <= maxsize) as Hc.
  { unfold comment_lines, total_lines in *.
    pose proof (count_nonneg is_comment lines).
    pose proof (count_le_length is_comment lines). lia. }
  destruct (ratio_finite (comment_lines lines) (code_lines lines) Hc)
    as [Hfin _].
  unfold analyze_file, bind, open_readlines. rewrite Hfs, Hmi.
  unfold ret, print, truediv. cbn [stdout opened].
  replace (Z.max (code_lines lines) 1 =? 0) with false
    by (symmetry; apply Z.eqb_neq; lia).
  rewrite Hfin. unfold ret. cbn [stdout opened].
  unfold after, report, ratio. f_equal. f_equal.
  rewrite <- !app_assoc. reflexivity.
Qed.

Lemma analyze_file_blank_only (path : str) (lines : list str) (w : world) :
  fs path = Ok lines -> lines <> [] ->
  (forall l, In l lines -> is_blank l = true) ->
  analyze_file unicode_alnum fs path w = (Raise ValueError, after w path []).
Proof.
  intros Hfs Hne Hall. unfold analyze_file, bind, open_readlines.
  rewrite Hfs, (max_indent_blank lines Hne Hall). unfold raise.
  now rewrite after_nil.
Qed.

Lemma max_indent_pure (lines : list str) :
  (exists mi, max_indent lines = ret mi) \/ max_indent lines = raise ValueError.
Proof.
  destruct lines as [|l lines]; [left; now exists 0|].
  unfold max_indent.
  destruct (map indent _) as [|x xs]; [now right|left; eexists; reflexivity].
Qed.

Lemma truediv_pure (a b : Z) :
  (exists q, truediv a b = ret q) \/ (exists e, truediv a b = raise e).
Proof.
  unfold truediv. destruct (b =? 0); [right; eauto|].
  destruct (Float.is_finite _); [left|right]; eauto.
Qed.

(** What a run writes does not depend on what was written before. *)
Lemma analyze_file_frame (path : str) (w : world) :
  analyze_file unicode_alnum fs path w =
  (fst (analyze_file unicode_alnum fs path start),
   after w path (stdout (snd (analyze_file unicode_alnum fs path start)))).
Proof.
  unfold analyze_file, bind, open_readlines.
  destruct (fs path) as [lines|e]; [|cbn; now rewrite after_nil].
  destruct (max_indent_pure lines) as [[mi ->]| ->];
    [|cbn; now rewrite after_nil].
  unfold ret, print. cbn [stdout opened].
  destruct (truediv_pure (comment_lines lines) (Z.max (code_lines lines) 1))
    as [[q ->]|[e ->]]; unfold ret, raise; cbn [stdout opened fst snd];
    unfold after; cbn [app]; rewrite <- ?app_assoc; reflexivity.
Qed.

(** A run with a path argument is the analysis of that path. *)
Lemma run_path (script path : str) (rest : list str) :
  run unicode_alnum fs (script :: path :: rest) =
  let '(r, w) := analyze_file unicode_alnum fs path start in
  {| output := stdout w;
     files_opened := opened w;
     uncaught := match r with
                 | Ok _ | Raise (SystemExit _) => None
                 | Raise e => Some e
                 end;
     exit_status := match r with
                    | Ok _ => 0
                    | Raise (SystemExit code) => code
                    | Raise _ => 1
                    end |}.
Proof.
  unfold run, main.
  replace (Z.of_nat (List.length (script :: path :: rest)) <? 2) with false
    by (symmetry; apply Z.ltb_ge; cbn [List.length]; lia).
  reflexivity.
Qed.

Lemma run_no_argument (argv : list str) :
  (List.length argv < 2)%nat ->
  run unicode_alnum fs argv =
  {| output := of_string "Usage: analyze.py <filepath>" ++ newline;
     files_opened := [];
     uncaught := None;
     exit_status := 1 |}.
Proof.
  intros H. destruct argv as [|a [|b r]]; [reflexivity|reflexivity|].
  cbn [List.length] in H. lia.
Qed.

End Runs.

Section Lines.

Lemma count_newline_app (s t : str) :
  count_occ N.eq_dec (s ++ t) 10%N
  = (count_occ N.eq_dec s 10%N + count_occ N.eq_dec t 10%N)%nat.
Proof. apply count_occ_app. Qed.

Lemma uint_no_newline (d : Decimal.uint) :
  count_occ N.eq_dec (of_string (NilEmpty.string_of_uint d)) 10%N = 0%nat.
Proof. induction d; simpl; auto. Qed.

Lemma str_of_int_no_newline (n : Z) :
  count_occ N.eq_dec (str_of_int n) 10%N = 0%nat.
Proof.
  unfold str_of_int. destruct (Z.to_int n) as [d|d]; simpl;
    apply uint_no_newline.
Qed.

Lemma format_1f_no_newline (x : Float.float) :
  count_occ N.eq_dec (Float.format_1f x) 10%N = 0%nat.
Proof.
  destruct x as [s|s| |s m e]; try destruct s; try reflexivity;
    unfold Float.format_1f, Float.sign_str;
    rewrite ?count_newline_app, ?str_of_int_no_newline; reflexivity.
Qed.

(** The report has a line end after each of its eight fields, and
    otherwise only those the path itself contains. *)
Lemma report_newlines (path : str) (t c m b f i : Z) (x : Float.float) :
  count_occ N.eq_dec (report path t c m b f i (Float.format_1f x)) 10%N
  = (8 + count_occ N.eq_dec path 10%N)%nat.
Proof.
  unfold report. rewrite !count_newline_app, !str_of_int_no_newline,
    format_1f_no_newline.
  cbn. lia.
Qed.

End Lines.

(** ** The claims about a run *)

Section Success.

Variable unicode_alnum : char -> bool.
Variable fs : filesystem.

(** The analysis of a file that is read succeeds when the file is
    empty or has a line that is not blank. *)
Lemma analyze_file_succeeds (path : str) (lines : list str) (w : world) :
  fs path = Ok lines -> total_lines lines <= maxsize ->
  (lines = [] \/ exists l, In l lines /\ is_blank l = false) ->
  exists mi,
    max_indent lines = ret mi
    /\ analyze_file unicode_alnum fs path w =
       (Ok tt,
        after w path
          (report path (total_lines lines) (code_lines lines)
             (comment_lines lines) (blank_lines lines)
             (functions unicode_alnum lines) mi
             (Float.format_1f (ratio (comment_lines lines) (code_lines lines))))).
Proof.
  intros Hfs Hlen Hnb.
  assert (exists mi, max_indent lines = ret mi) as [mi Hmi].
  { destruct Hnb as [->|(l & Hin & Hl)]; [now exists 0|].
    destruct (max_indent_spec lines l Hin Hl) as (mi & Hmi & _). eauto. }
  exists mi. split; [assumption|]. now apply analyze_file_report.
Qed.

End Success.

(** C2. A file that is not empty and has only blank lines: the claim is
    that the analysis does not fail on the maximal indentation and
    reports 0. The code guards the maximum with [if lines], which such a
    file passes, and [max] of no values raises [ValueError]: the run of
    the script on a file of one empty line writes nothing and ends with
    that exception. *)
Theorem blank_only_file_raises_ValueError (unicode_alnum : char -> bool) :
  Demo.files (of_string "blank.txt") = Ok [newline]
  /\ is_blank newline = true
  /\ run unicode_alnum Demo.files [Demo.script; of_string "blank.txt"]
     = {| output := [];
          files_opened := [of_string "blank.txt"];
          uncaught := Some ValueError;
          exit_status := 1 |}.
Proof. repeat split. Qed.

(** C3, as stated, fails: with two positional arguments the script
    analyses the first one, and without any the usage text names
    [analyze.py], not [analyze]. *)
Lemma usage_claim_counterexample :
  let usage := of_string "Usage: analyze <filepath>" ++ newline in
  let two := run Demo.ascii_only Demo.files
               [Demo.script; of_string "module.py"; of_string "extra"] in
  let none := run Demo.ascii_only Demo.files [Demo.script] in
  ~ (output two = usage /\ exit_status two = 1 /\ files_opened two = [])
  /\ ~ (output none = usage /\ exit_status none = 1 /\ files_opened none = []).
Proof.
  split; intros (H & _); vm_compute in H; discriminate H.
Qed.

(** C3, amended. Without a positional argument the script writes
    [Usage: analyze.py <filepath>] to standard output, exits with status
    1 and does not try to open any file. With two or more positional
    arguments it does what it does with the first alone. *)
Theorem usage_without_argument
    (unicode_alnum : char -> bool) (fs : filesystem)
    (argv : list str) (script path : str) (rest : list str) :
  (List.length argv < 2)%nat ->
  run unicode_alnum fs argv
  = {| output := of_string "Usage: analyze.py <filepath>" ++ newline;
       files_opened := [];
       uncaught := None;
       exit_status := 1 |}
  /\ run unicode_alnum fs (script :: path :: rest)
     = run unicode_alnum fs [script; path].
Proof.
  intros H. split; [now apply run_no_argument|]. now rewrite !run_path.
Qed.

Lemma usage_without_argument_witness :
  (List.length [Demo.script] < 2)%nat
  /\ run Demo.ascii_only Demo.files [Demo.script]
     = {| output := of_string "Usage: analyze.py <filepath>" ++ newline;
          files_opened := [];
          uncaught := None;
          exit_status := 1 |}
  /\ run Demo.ascii_only Demo.files
       [Demo.script; of_string "module.py"; of_string "extra"]
     = run Demo.ascii_only Demo.files [Demo.script; of_string "module.py"].
Proof.
  assert (List.length [Demo.script] < 2)%nat as H by (simpl; lia).
  split; [exact H|].
  exact (usage_without_argument Demo.ascii_only Demo.files [Demo.script]
           Demo.script (of_string "module.py") [of_string "extra"] H).
Defined.

(** C5. If opening or reading the file fails with an error of the I/O
    class, the analysis ends with that error, uncaught, and nothing is
    written: neither a line of the report nor the usage text. The script
    then ends with a non-zero status. *)
Theorem read_failure_propagates
    (unicode_alnum : char -> bool) (fs : filesystem) (path : str) (e : exn) :
  fs path = Raise e -> is_OSError e = true ->
  (forall w, analyze_file unicode_alnum fs path w
             = (Raise e, {| stdout := stdout w; opened := opened w ++ [path] |}))
  /\ (forall script rest,
        run unicode_alnum fs (script :: path :: rest)
        = {| output := [];
             files_opened := [path];
             uncaught := Some e;
             exit_status := 1 |}).
Proof.
  intros Hfs Hio. split.
  - intros w. rewrite (analyze_file_read_error _ _ _ _ _ Hfs).
    unfold after. now rewrite app_nil_r.
  - intros script rest. rewrite run_path.
    rewrite (analyze_file_read_error _ _ _ _ _ Hfs).
    destruct e; try discriminate Hio; reflexivity.
Qed.

Lemma read_failure_propagates_witness :
  (Demo.files (of_string "missing.py") = Raise FileNotFoundError
   /\ is_OSError FileNotFoundError = true)
  /\ run Demo.ascii_only Demo.files [Demo.script; of_string "missing.py"]
     = {| output := [];
          files_opened := [of_string "missing.py"];
          uncaught := Some FileNotFoundError;
          exit_status := 1 |}.
Proof.
  split; [split; reflexivity|].
  apply (read_failure_propagates Demo.ascii_only Demo.files
           (of_string "missing.py") FileNotFoundError);
    reflexivity.
Defined.

(** C7. For an empty file the five counts are 0, the maximal
    indentation is 0 and the comment ratio is written [0.0]. *)
Theorem empty_file_report
    (unicode_alnum : char -> bool) (fs : filesystem) (path : str) (w : world) :
  fs path = Ok [] ->
  total_lines [] = 0 /\ code_lines [] = 0 /\ comment_lines [] = 0
  /\ blank_lines [] = 0 /\ functions unicode_alnum [] = 0
  /\ max_indent [] = ret 0
  /\ Float.format_1f (ratio 0 0) = of_string "0.0"
  /\ analyze_file unicode_alnum fs path w
     = (Ok tt, after w path (report path 0 0 0 0 0 0 (of_string "0.0"))).
Proof.
  intros Hfs. repeat (split; [reflexivity|]).
  rewrite (analyze_file_report unicode_alnum fs path [] 0 w Hfs eq_refl);
    [reflexivity|].
  unfold total_lines, maxsize. simpl. lia.
Qed.

Lemma empty_file_report_witness :
  Demo.files (of_string "empty.py") = Ok []
  /\ run Demo.ascii_only Demo.files [Demo.script; of_string "empty.py"]
     = {| output := report (of_string "empty.py") 0 0 0 0 0 0 (of_string "0.0");
          files_opened := [of_string "empty.py"];
          uncaught := None;
          exit_status := 0 |}.
Proof.
  split; [reflexivity|].
  rewrite run_path.
  destruct (empty_file_report Demo.ascii_only Demo.files
              (of_string "empty.py") start eq_refl)
    as (_ & _ & _ & _ & _ & _ & _ & ->).
  reflexivity.
Defined.

(** C8, as stated, fails: the path is written as it is, and a path may
    contain a line end. The successful run on the path [a], line end,
    [b.py] writes nine lines, the second of them [b.py]. *)
Lemma eight_lines_counterexample :
  let path := of_string "a" ++ newline ++ of_string "b.py" in
  let r := run Demo.ascii_only Demo.every_path [Demo.script; path] in
  exit_status r = 0 /\ uncaught r = None
  /\ output r
     = of_string "File: a" ++ newline
       ++ of_string "b.py" ++ newline
       ++ of_string "Total lines: 1" ++ newline
       ++ of_string "Code lines: 1" ++ newline
       ++ of_string "Comment lines: 0" ++ newline
       ++ of_string "Blank lines: 0" ++ newline
       ++ of_string "Functions: 0" ++ newline
       ++ of_string "Max indentation: 0 spaces" ++ newline
       ++ of_string "Comment ratio: 0.0%" ++ newline
  /\ count_occ N.eq_dec (output r) 10%N = 9%nat
  /\ ~ count_occ N.eq_dec (output r) 10%N = 8%nat.
Proof.
  intros path r. repeat split. intros H. vm_compute in H. discriminate H.
Qed.

(** C8, amended. On success the analysis writes exactly eight fields,
    each ended by a line end, in this order: the file path, the total,
    code, comment and blank line counts, the function count, the maximal
    indentation followed by [ spaces], and the comment ratio with one
    decimal place followed by [%]; and nothing else. These are eight
    lines when the path contains no line end: the output has eight line
    ends besides those of the path. *)
Theorem report_eight_lines
    (unicode_alnum : char -> bool) (fs : filesystem)
    (path : str) (lines : list str) (w w' : world) :
  fs path = Ok lines -> total_lines lines <= maxsize ->
  analyze_file unicode_alnum fs path w = (Ok tt, w') ->
  exists mi text,
    let out := report path (total_lines lines) (code_lines lines)
                 (comment_lines lines) (blank_lines lines)
                 (functions unicode_alnum lines) mi text in
    w' = after w path out
    /\ max_indent lines = ret mi
    /\ text = Float.format_1f (ratio (comment_lines lines) (code_lines lines))
    /\ one_decimal text
    /\ count_occ N.eq_dec out 10%N = (8 + count_occ N.eq_dec path 10%N)%nat.
Proof.
  intros Hfs Hlen Hrun.
  destruct (max_indent_pure lines) as [[mi Hmi]|Hraise].
  - rewrite (analyze_file_report unicode_alnum fs path lines mi w Hfs Hmi Hlen)
      in Hrun.
    injection Hrun as <-.
    exists mi, (Float.format_1f (ratio (comment_lines lines) (code_lines lines))).
    cbv zeta. repeat split; try assumption.
    + apply format_1f_one_decimal, ratio_finite.
      unfold comment_lines, total_lines in *.
      pose proof (count_nonneg is_comment lines).
      pose proof (count_le_length is_comment lines). lia.
    + apply report_newlines.
  - exfalso. unfold analyze_file, bind, open_readlines in Hrun.
    rewrite Hfs, Hraise in Hrun. discriminate Hrun.
Qed.

Lemma report_eight_lines_witness :
  let path := of_string "module.py" in
  let lines := [Demo.line "# tool"; Demo.line "def f():";
                Demo.line "    return 1"; Demo.line ""] in
  let out := report path 4 2 1 1 1 4 (of_string "50.0") in
  (Demo.files path = Ok lines /\ total_lines lines <= maxsize
   /\ analyze_file Demo.ascii_only Demo.files path start
      = (Ok tt, after start path out))
  /\ exists mi text,
       after start path out
       = after start path
           (report path (total_lines lines) (code_lines lines)
              (comment_lines lines) (blank_lines lines)
              (functions Demo.ascii_only lines) mi text)
       /\ one_decimal text.
Proof.
  intros path lines out.
  assert (Demo.files path = Ok lines) as Hfs by reflexivity.
  assert (total_lines lines <= maxsize) as Hlen by (vm_compute; discriminate).
  assert (analyze_file Demo.ascii_only Demo.files path start
          = (Ok tt, after start path out)) as Hrun by (vm_compute; reflexivity).
  split; [auto|].
  destruct (report_eight_lines Demo.ascii_only Demo.files path lines start
              (after start path out) Hfs Hlen Hrun)
    as (mi & text & Hout & _ & _ & Hdec & _).
  exists mi, text. split; assumption.
Defined.

(** ** How close the written ratio is to the exact one *)

Section Accuracy.

(** Rounding a mantissa of at least 53 digits, in the range of the
    normal floats, moves it by less than one unit of the last place of
    the result. *)
Lemma binary_round_aux_bracket (s : bool) (m e : Z) (l : location) :
  2 ^ 52 <= m -> -1074 <= e -> Zdigits2 m + e <= 1023 ->
  exists m'' e'',
    binary_round_aux Float.prec Float.emax s m e l = S754_finite s m'' e''
    /\ 2 ^ 52 <= Zpos m'' < 2 ^ 53
    /\ e <= e'' <= Zdigits2 m + e - 52
    /\ (Zpos m'' - 1) * 2 ^ (e'' - e) <= m
    /\ m + 1 <= (Zpos m'' + 1) * 2 ^ (e'' - e).
Proof.
  intros Hm He Hd.
  set (D := Zdigits2 m) in *.
  assert (0 < m) as Hpos by lia.
  pose proof (Zdigits2_lower m Hpos) as Hlo. fold D in Hlo.
  pose proof (Zdigits2_bound m ltac:(lia)) as Hhi. fold D in Hhi.
  assert (53 <= D) as HD.
  { destruct (Z.le_gt_cases 53 D) as [|Hlt]; [assumption|exfalso].
    assert (2 ^ D <= 2 ^ 52)
      by (apply Z.pow_le_mono_r; [lia|]; pose proof (Zdigits2_nonneg m); lia).
    lia. }
  set (n1 := D - 53).
  pose proof (Z.pow_pos_nonneg 2 n1 ltac:(lia) ltac:(lia)) as Pn1.
  assert (2 ^ (D - 1) = 2 ^ n1 * 2 ^ 52) as E52
      by (rewrite <- Z.pow_add_r by lia; f_equal; lia).
  assert (2 ^ D = 2 ^ n1 * 2 ^ 53) as E53
      by (rewrite <- Z.pow_add_r by lia; f_equal; lia).
  set (m1 := m / 2 ^ n1).
  assert (2 ^ 52 <= m1 < 2 ^ 53) as Hm1.
  { split; [apply Z.div_le_lower_bound; lia|apply Z.div_lt_upper_bound; lia]. }
  assert (m1 * 2 ^ n1 <= m < (m1 + 1) * 2 ^ n1) as Hbr.
  { pose proof (Z.mul_div_le m (2 ^ n1) Pn1) as Q1.
    pose proof (Z.mul_succ_div_gt m (2 ^ n1) Pn1) as Q2.
    fold m1 in Q1, Q2. lia. }
  unfold binary_round_aux, shr_fexp. rewrite !fexp_eq. fold D.
  replace (Z.max (D + e - 53) (-1074) - e) with n1 by (unfold n1; lia).
  destruct (shr (shr_record_of_loc m l) e n1) as [mrs1 e1] eqn:E1.
  pose proof (shr_spec (shr_record_of_loc m l) e n1) as [A1 B1];
    [rewrite shr_record_of_loc_m; lia|].
  rewrite E1 in A1, B1. rewrite shr_record_of_loc_m in A1.
  cbn [fst snd] in A1, B1. rewrite Z.max_l in A1, B1 by lia.
  fold m1 in A1. rewrite fexp_eq.
  pose proof (round_nearest_even_bounds (shr_m mrs1) (loc_of_shr_record mrs1))
    as Hm2.
  set (m2 := round_nearest_even (shr_m mrs1) (loc_of_shr_record mrs1)) in *.
  rewrite A1 in Hm2.
  destruct (Z.lt_ge_cases m2 (2 ^ 53)) as [Hsmall|Hbig].
  - (* the rounded mantissa still has 53 digits *)
    assert (Zdigits2 m2 = 53) as D2 by (apply Zdigits2_unique; lia).
    rewrite D2.
    replace (Z.max (53 + e1 - 53) (-1074) - e1) with 0 by lia.
    cbn [shr shr_record_of_loc shr_m].
    destruct m2 as [|p|p] eqn:Ep; try lia.
    replace (e1 <=? Float.emax - Float.prec) with true
      by (symmetry; apply Z.leb_le; unfold Float.emax, Float.prec; lia).
    exists p, e1. split; [reflexivity|]. split; [lia|]. split; [lia|].
    replace (e1 - e) with n1 by lia. nia.
  - (* the rounding carried into a 54th digit *)
    assert (m2 = 2 ^ 53) as Em2 by lia.
    assert (Zdigits2 m2 = 54) as D2
        by (rewrite Em2; reflexivity).
    rewrite D2.
    replace (Z.max (54 + e1 - 53) (-1074) - e1) with 1 by lia.
    rewrite Em2. cbn [shr shr_record_of_loc iter_pos shr_1 shr_m Z.pow Z.pow_pos Pos.iter Z.mul Pos.mul].
    replace (e1 + 1 <=? Float.emax - Float.prec) with true
      by (symmetry; apply Z.leb_le; unfold Float.emax, Float.prec; lia).
    eexists. exists (e1 + 1). split; [reflexivity|].
    split; [lia|]. split; [lia|].
    replace (e1 + 1 - e) with (n1 + 1) by lia.
    rewrite Z.pow_add_r by lia. change (2 ^ 1) with 2.
    split; nia.
Qed.

(** The quotient of two positive ints as a float: its mantissa [mq] and
    exponent [eq] bracket the exact quotient [c / k] within one unit of
    the last place. *)
Lemma div_int_bracket (c k : Z) :
  0 < c -> 0 < k -> Zdigits2 c <= 900 -> Zdigits2 k <= 900 ->
  exists mq eq s,
    Float.div_int c k = S754_finite false mq eq
    /\ 2 ^ 52 <= Zpos mq < 2 ^ 53
    /\ 0 <= s <= 53 + Zdigits2 k /\ - s <= eq <= Zdigits2 c - 52
    /\ (Zpos mq - 1) * 2 ^ (eq + s) * k <= c * 2 ^ s
    /\ c * 2 ^ s < (Zpos mq + 1) * 2 ^ (eq + s) * k.
Proof.
  intros Hc Hk Hdc Hdk.
  destruct c as [|pc|pc]; try lia. destruct k as [|pk|pk]; try lia.
  unfold Float.div_int, Float.exact_of_int, SFdiv, SFdiv_core_binary.
  rewrite fexp_eq.
  set (d1 := Zdigits2 (Zpos pc)) in *. set (d2 := Zdigits2 (Zpos pk)) in *.
  assert (1 <= d1) as Hd1 by (subst d1; simpl; lia).
  assert (1 <= d2) as Hd2 by (subst d2; simpl; lia).
  pose proof (Zdigits2_lower (Zpos pc) ltac:(lia)) as Lc. fold d1 in Lc.
  pose proof (Zdigits2_bound (Zpos pk) ltac:(lia)) as Uk. fold d2 in Uk.
  set (e' := Z.min (Z.max (d1 + 0 - (d2 + 0) - 53) (-1074)) (0 - 0)).
  set (s := - e').
  assert (0 <= s) as Hs by (subst s e'; lia).
  assert (s = Z.max (53 + d2 - d1) 0) as Es by (subst s e'; lia).
  set (m' := match 0 - 0 - e' with
             | 0 => Z.pos pc
             | Z.pos _ => Z.shiftl (Z.pos pc) (0 - 0 - e')
             | Z.neg _ => 0
             end).
  assert (m' = Zpos pc * 2 ^ s) as Hm'.
  { subst m'. replace (0 - 0 - e') with s by (subst s; lia).
    destruct s as [|p|p] eqn:E; [lia| |lia].
    rewrite Z.shiftl_mul_pow2; lia. }
  destruct (Z.div_eucl m' (Z.pos pk)) as [q r] eqn:E.
  assert (q = m' / Zpos pk) as Hq by (unfold Z.div; now rewrite E).
  pose proof (Z.pow_pos_nonneg 2 s ltac:(lia) Hs) as Ps.
  assert (q * Zpos pk <= m' < (q + 1) * Zpos pk) as Hqb.
  { pose proof (Z.mul_div_le m' (Zpos pk) ltac:(lia)) as Q1.
    pose proof (Z.mul_succ_div_gt m' (Zpos pk) ltac:(lia)) as Q2.
    rewrite <- Hq in Q1, Q2. lia. }
  assert (2 ^ 52 * 2 ^ d2 <= m') as Hbig.
  { rewrite Hm', <- Z.pow_add_r by lia.
    transitivity (2 ^ (d1 - 1) * 2 ^ s); [|nia].
    rewrite <- Z.pow_add_r by lia. apply Z.pow_le_mono_r; lia. }
  assert (2 ^ 52 <= q) as Hq52.
  { rewrite Hq. apply Z.div_le_lower_bound; [lia|].
    pose proof (Z.pow_pos_nonneg 2 52 ltac:(lia) ltac:(lia)). nia. }
  assert (Zdigits2 q + e' <= d1) as Hdq.
  { pose proof (Zdigits2_mono q m' ltac:(nia)) as M1.
    pose proof (Zdigits2_mul_pow2 (Zpos pc) s ltac:(lia) Hs) as M2.
    rewrite <- Hm' in M2. fold d1 in M2. subst s. lia. }
  destruct (binary_round_aux_bracket (xorb false false) q e'
              (new_location (Z.pos pk) r) Hq52 ltac:(subst e'; lia) ltac:(lia))
    as (mq & eq & -> & Hmq & Heq & B1 & B2).
  exists mq, eq, s. split; [reflexivity|]. split; [exact Hmq|].
  split; [fold d2; lia|]. split; [subst s; lia|].
  replace (eq - e') with (eq + s) in B1, B2 by (subst s; lia).
  rewrite <- Hm'.
  pose proof (Z.pow_pos_nonneg 2 (eq + s) ltac:(lia) ltac:(subst s; lia)) as Pa.
  split; nia.
Qed.

(** A hundred times a float of the normal range: the mantissa and
    exponent of the product bracket the exact product within one unit of
    the last place. *)
Lemma mul_100_bracket (mq : positive) (eq : Z) :
  2 ^ 52 <= Zpos mq < 2 ^ 53 -> -1000 <= eq <= 900 ->
  exists my ey,
    Float.mul (S754_finite false mq eq) (Float.of_int 100)
    = S754_finite false my ey
    /\ 2 ^ 52 <= Zpos my < 2 ^ 53
    /\ eq - 46 <= ey <= eq + 8
    /\ (Zpos my - 1) * 2 ^ (ey - eq + 46) <= Zpos mq * (100 * 2 ^ 46)
    /\ Zpos mq * (100 * 2 ^ 46) + 1 <= (Zpos my + 1) * 2 ^ (ey - eq + 46).
Proof.
  intros Hmq Heq. rewrite of_int_100. unfold Float.mul, SFmul.
  set (P := Zpos (mq * 7036874417766400)).
  assert (P = Zpos mq * (100 * 2 ^ 46)) as EP by (subst P; lia).
  assert (2 ^ 52 <= P) as HP by lia.
  assert (Zdigits2 P <= 106) as HdP.
  { apply Zdigits2_le_iff; [lia|lia|].
    change (2 ^ 106) with (2 ^ 53 * 2 ^ 53). nia. }
  destruct (binary_round_aux_bracket (xorb false false) P (eq + -46) loc_Exact
              HP ltac:(lia) ltac:(lia))
    as (my & ey & -> & Hmy & Hey & B1 & B2).
  exists my, ey. split; [reflexivity|]. split; [exact Hmy|].
  split; [lia|].
  replace (ey - (eq + -46)) with (ey - eq + 46) in B1, B2 by lia.
  rewrite <- EP. split; assumption.
Qed.

(** Rounding to the nearest integer is off by at most a half. *)
Lemma round_half_even_error (num den : Z) :
  0 < den ->
  2 * num - den <= 2 * Float.round_half_even num den * den <= 2 * num + den.
Proof.
  intros Hd. unfold Float.round_half_even. cbv zeta.
  pose proof (Z.div_mod num den ltac:(lia)) as E.
  pose proof (Z.mod_pos_bound num den Hd) as B.
  set (q := num / den) in *. set (r := num mod den) in *.
  assert (2 * q * den = 2 * num - 2 * r) as Eq by lia.
  assert (2 * (q + 1) * den = 2 * num - 2 * r + 2 * den) as Eq' by lia.
  destruct (2 * r ?= den) eqn:C.
  - apply Z.compare_eq in C. destruct (Z.even q); lia.
  - rewrite Z.compare_lt_iff in C. lia.
  - rewrite Z.compare_gt_iff in C. lia.
Qed.

(** The numeral that is written for the ratio is the exact ratio
    [100 * c / k] to one decimal place, rounded down or up: it differs
    from the exact ratio by less than a tenth. *)
Lemma ratio_text_accuracy (c k : Z) :
  0 <= c < 2 ^ 38 -> 0 < k -> Zdigits2 k <= 900 ->
  exists a d,
    0 <= a /\ 0 <= d <= 9
    /\ Float.format_1f (Float.mul (Float.div_int c k) (Float.of_int 100))
       = str_of_int a ++ of_string "." ++ [Z.to_N (48 + d)]
    /\ (10 * a + d - 1) * k < 1000 * c < (10 * a + d + 1) * k.
Proof.
  intros [Hc0 Hc] Hk Hdk.
  destruct (Z.eq_dec c 0) as [->|Hne].
  { exists 0, 0. destruct k as [|pk|pk]; try lia.
    repeat split; try lia; reflexivity. }
  assert (Zdigits2 c <= 38) as Hdc by (apply Zdigits2_le_iff; lia).
  destruct (div_int_bracket c k ltac:(lia) Hk ltac:(lia) Hdk)
    as (mq & eq & s & -> & Hmq & Hs & Heq & D1 & D2).
  destruct (mul_100_bracket mq eq Hmq ltac:(lia))
    as (my & ey & -> & Hmy & Hey & M1 & M2).
  assert (ey <= -6) as Hey6 by lia.
  set (t := Float.tenths my ey).
  assert (t = Float.round_half_even (Zpos my * 10) (2 ^ (- ey))) as Et
      by (subst t; destruct ey; try lia; reflexivity).
  pose proof (tenths_nonneg my ey) as Ht0. fold t in Ht0.
  exists (t / 10), (t mod 10).
  pose proof (Z.mod_pos_bound t 10 ltac:(lia)) as Hmod.
  pose proof (Z.div_mod t 10 ltac:(lia)) as Hdm.
  split; [apply Z.div_pos; lia|]. split; [lia|]. split.
  { unfold Float.format_1f. cbn [Float.sign_str app]. fold t.
    now rewrite (str_of_digit (t mod 10)) by lia. }
  replace (10 * (t / 10) + t mod 10) with t by lia.
  (* the powers of two involved *)
  set (A := 2 ^ (eq + s)) in *. set (G := 2 ^ (- eq)).
  set (B := 2 ^ (ey - eq + 46)) in *. set (Dn := 2 ^ (- ey)) in *.
  set (M := 2 ^ 46) in *.
  assert (0 < A) as PA by (apply Z.pow_pos_nonneg; lia).
  assert (0 < B) as PB by (apply Z.pow_pos_nonneg; lia).
  assert (2 ^ s = A * G) as ES
      by (unfold A, G; rewrite <- Z.pow_add_r by lia; f_equal; lia).
  assert (Dn * B = M * G) as EW
      by (unfold Dn, B, M, G; rewrite <- !Z.pow_add_r by lia; f_equal; lia).
  assert (16384 <= G) as HG
      by (change 16384 with (2 ^ 14); apply Z.pow_le_mono_r; lia).
  assert (64 <= Dn) as HDn
      by (change 64 with (2 ^ 6); apply Z.pow_le_mono_r; lia).
  assert (0 < M) as PM by (unfold M; lia).
  pose proof (round_half_even_error (Zpos my * 10) Dn ltac:(lia)) as T.
  rewrite <- Et in T.
  rewrite ES in D1, D2.
  assert ((Zpos mq - 1) * k <= c * G) as D1' by nia.
  assert (c * G < (Zpos mq + 1) * k) as D2' by nia.
  set (W := M * G) in *.
  assert (0 < W) as PW by (unfold W; nia).
  assert (64 * B <= W) as HB by nia.
  assert (16384 * M <= W) as HM by (unfold W; nia).
  (* the products that the three brackets are compared through *)
  set (u := c * W). set (v1 := Zpos mq * k * M). set (v2 := Zpos my * B * k).
  set (kB := k * B). set (kM := k * M). set (kW := k * W).
  set (tkW := t * kW).
  assert (v1 - kM <= u < v1 + kM) as Fa.
  { unfold u, v1, kM, W. split.
    - replace (Zpos mq * k * M - k * M) with ((Zpos mq - 1) * k * M) by ring.
      replace (c * (M * G)) with (c * G * M) by ring.
      apply Z.mul_le_mono_nonneg_r; lia.
    - replace (Zpos mq * k * M + k * M) with ((Zpos mq + 1) * k * M) by ring.
      replace (c * (M * G)) with (c * G * M) by ring.
      apply Z.mul_lt_mono_pos_r; lia. }
  assert (v2 - kB <= 100 * v1 < v2 + kB) as Fb.
  { unfold v1, v2, kB, M in *. split.
    - replace (Zpos my * B * k - k * B) with ((Zpos my - 1) * B * k) by ring.
      replace (100 * (Zpos mq * k * 2 ^ 46))
        with (Zpos mq * (100 * 2 ^ 46) * k) by ring.
      apply Z.mul_le_mono_nonneg_r; lia.
    - replace (Zpos my * B * k + k * B) with ((Zpos my + 1) * B * k) by ring.
      replace (100 * (Zpos mq * k * 2 ^ 46))
        with (Zpos mq * (100 * 2 ^ 46) * k) by ring.
      apply Z.mul_lt_mono_pos_r; lia. }
  assert (2 * tkW - kW <= 20 * v2 <= 2 * tkW + kW) as Fc.
  { unfold tkW, kW, v2. rewrite <- EW.
    assert (0 <= B * k) as Pbk by nia.
    split.
    - replace (2 * (t * (k * (Dn * B))) - k * (Dn * B))
        with ((2 * t * Dn - Dn) * (B * k)) by ring.
      replace (20 * (Zpos my * B * k)) with (2 * (Zpos my * 10) * (B * k)) by ring.
      apply Z.mul_le_mono_nonneg_r; lia.
    - replace (2 * (t * (k * (Dn * B))) + k * (Dn * B))
        with ((2 * t * Dn + Dn) * (B * k)) by ring.
      replace (20 * (Zpos my * B * k)) with (2 * (Zpos my * 10) * (B * k)) by ring.
      apply Z.mul_le_mono_nonneg_r; lia. }
  assert (20 * kB + 2000 * kM < kW) as Fd.
  { unfold kB, kM, kW.
    replace (20 * (k * B) + 2000 * (k * M)) with (k * (20 * B + 2000 * M)) by ring.
    apply Z.mul_lt_mono_pos_l; lia. }
  assert ((t - 1) * kW < 1000 * u < (t + 1) * kW) as Fe.
  { replace ((t - 1) * kW) with (tkW - kW) by (unfold tkW; ring).
    replace ((t + 1) * kW) with (tkW + kW) by (unfold tkW; ring). lia. }
  unfold u, kW in Fe.
  replace ((t - 1) * (k * W)) with ((t - 1) * k * W) in Fe by ring.
  replace ((t + 1) * (k * W)) with ((t + 1) * k * W) in Fe by ring.
  replace (1000 * (c * W)) with (1000 * c * W) in Fe by ring.
  destruct Fe as [Fl Fu].
  apply Z.mul_lt_mono_pos_r in Fl, Fu; try assumption. lia.
Qed.

End Accuracy.

(** C4. The comment ratio that is written is
    [comment_lines / max(code_lines, 1) * 100] in the format [.1f]: a
    numeral with one decimal place that, for a file of fewer than [2^38]
    lines, is the exact value of that quotient rounded down or up to a
    tenth. For a file with [N] comment lines and no code line this is
    [N * 100.0]: the decimal numeral of [100 * N], the point and a zero,
    as long as [100 * N] is an int that a float holds exactly; three
    comment lines and no code line are reported as [300.0]. *)
Theorem comment_ratio_floor
    (unicode_alnum : char -> bool) (fs : filesystem)
    (path : str) (lines : list str) (w : world) :
  fs path = Ok lines -> total_lines lines <= maxsize ->
  (lines = [] \/ exists l, In l lines /\ is_blank l = false) ->
  let c := comment_lines lines in
  let k := code_lines lines in
  let text :=
    Float.format_1f
      (Float.mul (Float.div_int c (Z.max k 1)) (Float.of_int 100)) in
  (exists mi,
      analyze_file unicode_alnum fs path w =
      (Ok tt,
       after w path
         (report path (total_lines lines) k c (blank_lines lines)
            (functions unicode_alnum lines) mi text)))
  /\ (k = 0 ->
      text = Float.format_1f (Float.mul (Float.of_int c) (Float.of_int 100)))
  /\ (k = 0 -> 100 * c < 2 ^ 53 -> text = str_of_int (100 * c) ++ of_string ".0")
  /\ (k = 0 -> c = 3 -> text = of_string "300.0")
  /\ one_decimal text
  /\ (total_lines lines < 2 ^ 38 ->
      exists a d,
        0 <= a /\ 0 <= d <= 9
        /\ text = str_of_int a ++ of_string "." ++ [Z.to_N (48 + d)]
        /\ (10 * a + d - 1) * Z.max k 1 < 1000 * c
           < (10 * a + d + 1) * Z.max k 1).
Proof.
  intros Hfs Hlen Hnb c k text.
  assert (0 <= c) as Hc by apply count_nonneg.
  assert (k = 0 ->
          text = Float.format_1f (Float.mul (Float.of_int c) (Float.of_int 100)))
    as Hone.
  { intros Hk. subst text. rewrite Hk. change (Z.max 0 1) with 1.
    destruct (Z.eq_dec c 0) as [->|Hne]; [reflexivity|].
    now rewrite div_int_one by lia. }
  split; [|split; [exact Hone|split; [|split; [|split]]]].
  - destruct (analyze_file_succeeds unicode_alnum fs path lines w Hfs Hlen Hnb)
      as (mi & _ & Hrun).
    exists mi. exact Hrun.
  - intros Hk Hsmall. rewrite (Hone Hk).
    destruct (Z.eq_dec c 0) as [->|Hne]; [reflexivity|].
    rewrite mul_of_int_100 by lia. apply format_of_int. lia.
  - intros Hk H3. rewrite (Hone Hk), H3. reflexivity.
  - apply format_1f_one_decimal, ratio_finite.
    pose proof (count_le_length is_comment lines) as Hle.
    subst c. unfold comment_lines, total_lines in *. lia.
  - intros Hsmall.
    pose proof (count_le_length is_comment lines) as Hcl.
    pose proof (count_le_length is_code lines) as Hkl.
    apply ratio_text_accuracy.
    + subst c. unfold comment_lines, total_lines in *. lia.
    + lia.
    + assert (Zdigits2 (Z.max k 1) <= 38); [|lia].
      apply Zdigits2_le_iff; try lia.
      subst k. unfold code_lines, total_lines in *. lia.
Qed.

Lemma comment_ratio_floor_witness :
  let comments := [Demo.line "# one"; Demo.line "// two"; Demo.line "# three"] in
  let module := [Demo.line "# tool"; Demo.line "def f():";
                 Demo.line "    return 1"; Demo.line ""] in
  let text (lines : list str) :=
    Float.format_1f
      (Float.mul (Float.div_int (comment_lines lines)
                    (Z.max (code_lines lines) 1)) (Float.of_int 100)) in
  (Demo.files (of_string "comments.py") = Ok comments
   /\ total_lines comments <= maxsize
   /\ (exists l, In l comments /\ is_blank l = false))
  /\ (Demo.files (of_string "module.py") = Ok module
      /\ total_lines module <= maxsize
      /\ (exists l, In l module /\ is_blank l = false))
  /\ (comment_lines comments = 3 /\ code_lines comments = 0)
  /\ text comments = of_string "300.0"
  /\ (comment_lines module = 1 /\ code_lines module = 2)
  /\ text module = of_string "50.0"
  /\ exists a d,
       text module = str_of_int a ++ of_string "." ++ [Z.to_N (48 + d)]
       /\ (10 * a + d - 1) * 2 < 1000 * 1 < (10 * a + d + 1) * 2.
Proof.
  intros comments module text.
  assert (Demo.files (of_string "comments.py") = Ok comments) as Hfs
      by reflexivity.
  assert (total_lines comments <= maxsize) as Hlen
      by (vm_compute; discriminate).
  assert (exists l, In l comments /\ is_blank l = false) as Hnb
      by (exists (Demo.line "# one"); split; [now left|reflexivity]).
  assert (Demo.files (of_string "module.py") = Ok module) as Hfs'
      by reflexivity.
  assert (total_lines module <= maxsize) as Hlen'
      by (vm_compute; discriminate).
  assert (exists l, In l module /\ is_blank l = false) as Hnb'
      by (exists (Demo.line "# tool"); split; [now left|reflexivity]).
  split; [auto|]. split; [auto|]. split; [split; reflexivity|].
  destruct (comment_ratio_floor Demo.ascii_only Demo.files
              (of_string "comments.py") comments start
              Hfs Hlen (or_intror Hnb)) as (_ & _ & _ & H300 & _).
  split; [apply H300; reflexivity|].
  split; [split; reflexivity|].
  split; [reflexivity|].
  destruct (comment_ratio_floor Demo.ascii_only Demo.files
              (of_string "module.py") module start
              Hfs' Hlen' (or_intror Hnb')) as (_ & _ & _ & _ & _ & Hacc).
  destruct Hacc as (a & d & _ & _ & Ht & Hb); [vm_compute; reflexivity|].
  exists a, d. split; [exact Ht|exact Hb].
Defined.

(** C10. The analysis is a function of the path and of what reading it
    gives: on two disks where the path reads the same, whatever else
    they hold and whatever was written before, the analysis ends the
    same way and writes the same text, character for character. *)
Theorem report_depends_on_path_and_content
    (unicode_alnum : char -> bool) (fs1 fs2 : filesystem) (path : str) :
  fs1 path = fs2 path ->
  (forall w, analyze_file unicode_alnum fs1 path w
             = analyze_file unicode_alnum fs2 path w)
  /\ (exists text, forall w1 w2,
         stdout (snd (analyze_file unicode_alnum fs1 path w1)) = stdout w1 ++ text
         /\ stdout (snd (analyze_file unicode_alnum fs2 path w2)) = stdout w2 ++ text)
  /\ (forall script1 rest1 script2 rest2,
         output (run unicode_alnum fs1 (script1 :: path :: rest1))
         = output (run unicode_alnum fs2 (script2 :: path :: rest2))).
Proof.
  intros Hsame.
  assert (forall w, analyze_file unicode_alnum fs1 path w
                    = analyze_file unicode_alnum fs2 path w) as Heq.
  { intros w. unfold analyze_file, bind, open_readlines. now rewrite Hsame. }
  split; [exact Heq|]. split.
  - exists (stdout (snd (analyze_file unicode_alnum fs1 path start))).
    intros w1 w2. split.
    + now rewrite (analyze_file_frame unicode_alnum fs1 path w1).
    + rewrite <- Heq. now rewrite (analyze_file_frame unicode_alnum fs1 path w2).
  - intros script1 rest1 script2 rest2. rewrite !run_path, Heq.
    now destruct (analyze_file unicode_alnum fs2 path start).
Qed.

Lemma report_depends_on_path_and_content_witness :
  let path := of_string "module.py" in
  Demo.files path = Demo.other_files path
  /\ Demo.files (of_string "empty.py") <> Demo.other_files (of_string "empty.py")
  /\ output (run Demo.ascii_only Demo.files [Demo.script; path])
     = output (run Demo.ascii_only Demo.other_files
                 [of_string "python3"; path; of_string "more"]).
Proof.
  intros path. split; [reflexivity|]. split; [discriminate|].
  apply (report_depends_on_path_and_content Demo.ascii_only
           Demo.files Demo.other_files path).
  reflexivity.
Defined.

(** * Further properties of the program *)

(** ** More about lines: what their kind and indentation depend on *)

Section LineFacts.

Lemma lstrip_app_nonspace (xs : str) (c : char) :
  isspace c = false -> lstrip (xs ++ [c]) = lstrip xs ++ [c].
Proof.
  intros Hc. induction xs as [|x xs IH]; simpl.
  - now rewrite Hc.
  - destruct (isspace x); [exact IH|reflexivity].
Qed.

Lemma rstrip_nonspace_cons (c : char) (s : str) :
  isspace c = false -> rstrip (c :: s) = c :: rstrip s.
Proof.
  intros Hc. unfold rstrip. simpl.
  rewrite (lstrip_app_nonspace _ _ Hc), rev_app_distr. reflexivity.
Qed.

Lemma lstrip_app_last_cases (xs : str) (d : char) :
  lstrip (xs ++ [d]) = [] \/ exists ys, lstrip (xs ++ [d]) = ys ++ [d].
Proof.
  induction xs as [|x xs IH]; simpl.
  - destruct (isspace d); [now left|right; now exists []].
  - destruct (isspace x); [exact IH|right; now exists (x :: xs)].
Qed.

Lemma rstrip_cons_cases (d : char) (t : str) :
  rstrip (d :: t) = [] \/ exists u, rstrip (d :: t) = d :: u.
Proof.
  unfold rstrip. simpl.
  destruct (lstrip_app_last_cases (rev t) d) as [->|[ys ->]]; [now left|].
  right. rewrite rev_app_distr. simpl. eauto.
Qed.

Lemma lstrip_nil_iff (l : str) : lstrip l = [] <-> forallb isspace l = true.
Proof.
  induction l as [|c l IH]; simpl; [tauto|].
  destruct (isspace c); simpl; [exact IH|]. split; discriminate.
Qed.

Lemma strip_nil_iff (l : str) : strip l = [] <-> forallb isspace l = true.
Proof.
  rewrite <- lstrip_nil_iff. split.
  - intros H. destruct (lstrip l) as [|c t] eqn:E; [reflexivity|].
    destruct (strip_head l c t E) as [t' Ht]. congruence.
  - intros H. unfold strip. now rewrite H.
Qed.

(** Stripping on the right does not change what a line starts with, as
    far as the comment markers go. *)
Lemma strip_starts (l : str) :
  startswith (strip l) (of_string "#") = startswith (lstrip l) (of_string "#")
  /\ startswith (strip l) (of_string "//")
     = startswith (lstrip l) (of_string "//").
Proof.
  unfold strip. destruct (lstrip l) as [|c t] eqn:E; [split; reflexivity|].
  pose proof (lstrip_head l c t E) as Hc.
  rewrite (rstrip_nonspace_cons c t Hc). split.
  - cbn. now destruct (rstrip t), t.
  - cbn. destruct (c =? 47)%N; [|reflexivity]. cbn [andb].
    destruct t as [|d t']; [reflexivity|].
    destruct (N.eqb_spec d 47) as [->|Hd].
    + rewrite rstrip_nonspace_cons by reflexivity. cbn.
      now destruct (rstrip t'), t'.
    + destruct (rstrip_cons_cases d t') as [->|[u ->]];
        cbn; destruct (N.eqb_spec d 47); (contradiction || reflexivity).
Qed.

Lemma lstrip_split (l : str) :
  exists ws, l = ws ++ lstrip l /\ forallb isspace ws = true.
Proof.
  induction l as [|c l (ws & IH & Hws)]; [now exists []|].
  simpl. destruct (isspace c) eqn:Hc.
  - exists (c :: ws). simpl. rewrite Hc, Hws. split; [congruence|reflexivity].
  - now exists [].
Qed.

End LineFacts.

Section KindFacts.

Lemma is_blank_forallb (l : str) : is_blank l = forallb isspace l.
Proof.
  unfold is_blank. destruct (strip l) as [|c t] eqn:E.
  - symmetry. now apply strip_nil_iff.
  - cbn. destruct (forallb isspace l) eqn:F; [|reflexivity].
    apply strip_nil_iff in F. congruence.
Qed.

Lemma is_comment_lstrip (l : str) :
  is_comment l
  = startswith (lstrip l) (of_string "#")
    || startswith (lstrip l) (of_string "//").
Proof. unfold is_comment. now destruct (strip_starts l) as [-> ->]. Qed.

Lemma is_code_lstrip (l : str) :
  is_code l
  = negb (forallb isspace l)
    && negb (startswith (lstrip l) (of_string "#")
             || startswith (lstrip l) (of_string "//")).
Proof.
  rewrite <- is_blank_forallb, <- is_comment_lstrip.
  unfold is_code, is_blank, is_comment.
  destruct (truthy (strip l)); cbn [negb andb]; [|reflexivity].
  destruct (startswith (strip l) (of_string "#")),
           (startswith (strip l) (of_string "//")); reflexivity.
Qed.

End KindFacts.

(** X4. The kind of a line depends on its leading characters only: a line
    is blank when all its characters are whitespace, a comment when its
    first character that is not whitespace is [#] or its first two are
    [//], and code otherwise. What follows on the line, trailing
    whitespace included, and how far the line is indented make no
    difference. *)
Theorem line_kind_by_leading_characters (l : str) :
  is_blank l = forallb isspace l
  /\ is_comment l
     = startswith (lstrip l) (of_string "#")
       || startswith (lstrip l) (of_string "//")
  /\ is_code l
     = negb (forallb isspace l)
       && negb (startswith (lstrip l) (of_string "#")
                || startswith (lstrip l) (of_string "//"))
  /\ (forall ws, forallb isspace ws = true ->
        is_blank (ws ++ l) = is_blank l
        /\ is_comment (ws ++ l) = is_comment l
        /\ is_code (ws ++ l) = is_code l).
Proof.
  split; [apply is_blank_forallb|]. split; [apply is_comment_lstrip|].
  split; [apply is_code_lstrip|].
  intros ws Hws.
  assert (forallb isspace (ws ++ l) = forallb isspace l) as Hf
      by (rewrite forallb_app, Hws; reflexivity).
  rewrite !is_blank_forallb, !is_comment_lstrip, !is_code_lstrip, Hf,
    (lstrip_app ws l Hws).
  auto.
Qed.

(** X5. The indentation of a line is the number of its leading
    whitespace characters, each counted once whatever its width: the
    line is that many whitespace characters followed by a rest that does
    not start with whitespace. It is never negative and never more than
    the length of the line. *)
Theorem indent_counts_leading_whitespace (l : str) :
  exists ws,
    l = ws ++ lstrip l /\ forallb isspace ws = true
    /\ indent l = len ws
    /\ (forall c t, lstrip l = c :: t -> isspace c = false)
    /\ 0 <= indent l <= len l
    /\ (is_blank l = false -> indent l < len l).
Proof.
  destruct (lstrip_split l) as (ws & Hl & Hws). exists ws.
  assert (indent l = len ws) as Hi.
  { unfold indent, len. rewrite Hl at 1. rewrite length_app. lia. }
  split; [exact Hl|]. split; [exact Hws|]. split; [exact Hi|].
  split; [apply lstrip_head|].
  assert (len l = len ws + len (lstrip l)) as Hlen
      by (unfold len; rewrite Hl at 1; rewrite length_app; lia).
  split; [unfold len in *; lia|].
  intros Hb. rewrite is_blank_forallb in Hb.
  destruct (lstrip l) as [|c t] eqn:E.
  - apply lstrip_nil_iff in E. congruence.
  - unfold len in *. cbn [List.length] in Hlen. lia.
Qed.

(** ** More about the counts and the maximal indentation *)

Section CountMore.

Lemma count_app (cond : str -> bool) (a b : list str) :
  count cond (a ++ b) = count cond a + count cond b.
Proof.
  induction a as [|l a IH]; [now rewrite count_nil|].
  cbn [app]. rewrite !count_cons, IH. lia.
Qed.

Lemma count_perm (cond : str -> bool) (a b : list str) :
  Permutation a b -> count cond a = count cond b.
Proof.
  induction 1 as [|l a b _ IH|x y a|a b c _ IH1 _ IH2].
  - reflexivity.
  - rewrite !count_cons. lia.
  - rewrite !count_cons. lia.
  - congruence.
Qed.

Lemma ret_inj {A} (x y : A) : @ret A x = ret y -> x = y.
Proof.
  intros H. apply (f_equal (fun f => f start)) in H. now injection H.
Qed.

Lemma raise_not_ret {A} (e : exn) (x : A) : @raise A e <> ret x.
Proof.
  intros H. apply (f_equal (fun f => f start)) in H. discriminate H.
Qed.

Lemma fold_left_max_init (ys : list Z) (a b : Z) :
  fold_left Z.max ys (Z.max a b) = Z.max a (fold_left Z.max ys b).
Proof.
  revert b. induction ys as [|y ys IH]; intros b; simpl; [reflexivity|].
  rewrite <- IH. f_equal. lia.
Qed.

Lemma fold_left_max_ge (ys : list Z) (a : Z) : a <= fold_left Z.max ys a.
Proof.
  destruct (fold_left_max_spec ys a) as [_ H]. apply H. now left.
Qed.

Lemma indent_nonneg (l : str) : 0 <= indent l.
Proof.
  destruct (lstrip_split l) as (ws & Hl & _).
  unfold indent, len. rewrite Hl at 1. rewrite length_app. lia.
Qed.

(** The indentations that enter the maximum. *)
Lemma max_indent_nonneg (lines : list str) (mi : Z) :
  max_indent lines = ret mi -> 0 <= mi.
Proof.
  destruct lines as [|l lines]; [intros H; apply ret_inj in H; lia|].
  unfold max_indent.
  destruct (filter _ (l :: lines)) as [|a nb]; cbn [map Py.max].
  - intros H. now apply raise_not_ret in H.
  - intros H. apply ret_inj in H. subst mi.
    pose proof (fold_left_max_ge (map indent nb) (indent a)).
    pose proof (indent_nonneg a). lia.
Qed.

Lemma py_max_app (xs ys : list Z) (x y : Z) :
  Py.max xs = ret x -> Py.max ys = ret y ->
  Py.max (xs ++ ys) = ret (Z.max x y).
Proof.
  destruct xs as [|x0 xs]; [intros H; now apply raise_not_ret in H|].
  destruct ys as [|y0 ys]; [intros _ H; now apply raise_not_ret in H|].
  cbn [Py.max app]. intros Hx Hy. apply ret_inj in Hx, Hy. subst.
  rewrite fold_left_app. cbn [fold_left].
  now rewrite fold_left_max_init.
Qed.

Lemma filter_perm {A} (f : A -> bool) (a b : list A) :
  Permutation a b -> Permutation (filter f a) (filter f b).
Proof.
  induction 1 as [|x a b _ IH|x y a|a b c _ IH1 _ IH2]; simpl.
  - constructor.
  - destruct (f x); [now constructor|assumption].
  - destruct (f x), (f y); try reflexivity. constructor.
  - etransitivity; eassumption.
Qed.

Lemma py_max_perm (xs ys : list Z) :
  Permutation xs ys -> Py.max xs = Py.max ys.
Proof.
  intros P. destruct xs as [|x xs], ys as [|y ys].
  - reflexivity.
  - now apply Permutation_nil_cons in P.
  - symmetry in P. now apply Permutation_nil_cons in P.
  - cbn [Py.max]. f_equal.
    destruct (fold_left_max_spec xs x) as [Hin Hle].
    destruct (fold_left_max_spec ys y) as [Hin' Hle'].
    cbv zeta in *.
    apply (Permutation_in _ P) in Hin.
    apply (Permutation_in _ (Permutation_sym P)) in Hin'.
    specialize (Hle _ Hin'). specialize (Hle' _ Hin). lia.
Qed.

Lemma max_indent_cases (lines : list str) :
  max_indent lines =
  match lines with
  | [] => ret 0
  | _ :: _ => Py.max (map indent (filter (fun l => truthy (strip l)) lines))
  end.
Proof. now destruct lines. Qed.

End CountMore.

(** X1. When a file has a line that is not blank, the maximal
    indentation is the indentation of one such line and at least that of
    every such line; comment lines count like code lines, blank lines do
    not count however long they are. It is never negative, and it is
    less than the length of the line that has it. *)
Theorem max_indent_is_maximum (lines : list str) (l0 : str) :
  In l0 lines -> is_blank l0 = false ->
  exists mi,
    max_indent lines = ret mi
    /\ (exists l, In l lines /\ is_blank l = false
                  /\ indent l = mi /\ mi < len l)
    /\ (forall l, In l lines -> is_blank l = false -> indent l <= mi)
    /\ 0 <= mi.
Proof.
  intros Hin Hnb.
  destruct (max_indent_spec lines l0 Hin Hnb) as (mi & Hmi & (l & Hl & Hb & Hi) & Hle).
  exists mi. split; [exact Hmi|]. split; [|split; [exact Hle|]].
  - exists l. repeat split; try assumption.
    destruct (lstrip_split l) as (ws & Hs & _).
    rewrite is_blank_forallb in Hb.
    destruct (lstrip l) as [|c t] eqn:E.
    + apply lstrip_nil_iff in E. congruence.
    + subst mi. unfold indent, len. rewrite E. cbn [List.length]. lia.
  - eapply max_indent_nonneg; eauto.
Qed.

Lemma max_indent_is_maximum_witness :
  let lines := [Demo.line "# tool"; Demo.line "def f():";
                Demo.line "    return 1"; Demo.line "        "] in
  (In (Demo.line "def f():") lines /\ is_blank (Demo.line "def f():") = false)
  /\ exists mi, max_indent lines = ret mi /\ 0 <= mi.
Proof.
  intros lines.
  assert (In (Demo.line "def f():") lines) as Hin by (right; now left).
  assert (is_blank (Demo.line "def f():") = false) as Hb by reflexivity.
  split; [auto|].
  destruct (max_indent_is_maximum lines _ Hin Hb) as (mi & Hmi & _ & _ & Hpos).
  exists mi. auto.
Defined.

(** X6. The counts of a file made of two parts are the sums of the
    counts of the parts, and its maximal indentation is the greater of
    the two, whenever both parts have one. *)
Theorem counts_of_concatenation
    (unicode_alnum : char -> bool) (a b : list str) (x y : Z) :
  max_indent a = ret x -> max_indent b = ret y ->
  total_lines (a ++ b) = total_lines a + total_lines b
  /\ code_lines (a ++ b) = code_lines a + code_lines b
  /\ comment_lines (a ++ b) = comment_lines a + comment_lines b
  /\ blank_lines (a ++ b) = blank_lines a + blank_lines b
  /\ functions unicode_alnum (a ++ b)
     = functions unicode_alnum a + functions unicode_alnum b
  /\ max_indent (a ++ b) = ret (Z.max x y).
Proof.
  intros Ha Hb.
  split; [unfold total_lines; rewrite length_app; lia|].
  do 4 (split; [apply count_app|]).
  pose proof (max_indent_nonneg a x Ha) as Hx.
  pose proof (max_indent_nonneg b y Hb) as Hy.
  destruct a as [|l a].
  - apply ret_inj in Ha. subst x. cbn [app]. rewrite Hb. f_equal. lia.
  - destruct b as [|k b].
    + apply ret_inj in Hb. subst y. rewrite app_nil_r, Ha. f_equal. lia.
    + rewrite max_indent_cases in Ha, Hb. cbn [app].
      change (max_indent (l :: a ++ k :: b))
        with (Py.max (map indent (filter (fun l => truthy (strip l))
                                    ((l :: a) ++ k :: b)))).
      rewrite filter_app, map_app. now apply py_max_app.
Qed.

Lemma counts_of_concatenation_witness :
  let a := [Demo.line "# tool"; Demo.line "def f():"] in
  let b := [Demo.line "    return 1"; Demo.line ""] in
  (max_indent a = ret 0 /\ max_indent b = ret 4)
  /\ code_lines (a ++ b) = code_lines a + code_lines b
  /\ max_indent (a ++ b) = ret (Z.max 0 4).
Proof.
  intros a b.
  assert (max_indent a = ret 0) as Ha by reflexivity.
  assert (max_indent b = ret 4) as Hb by reflexivity.
  split; [auto|].
  destruct (counts_of_concatenation Demo.ascii_only a b 0 4 Ha Hb)
    as (_ & Hc & _ & _ & _ & Hm).
  auto.
Defined.

(** X7. The report does not depend on the order of the lines: a
    rearrangement of the lines of a file has the same five counts and
    the same maximal indentation, or fails on it in the same way. *)
Theorem counts_order_independent
    (unicode_alnum : char -> bool) (a b : list str) :
  Permutation a b ->
  total_lines a = total_lines b
  /\ code_lines a = code_lines b
  /\ comment_lines a = comment_lines b
  /\ blank_lines a = blank_lines b
  /\ functions unicode_alnum a = functions unicode_alnum b
  /\ max_indent a = max_indent b.
Proof.
  intros P.
  split; [unfold total_lines; now rewrite (Permutation_length P)|].
  do 4 (split; [now apply count_perm|]).
  rewrite !max_indent_cases.
  destruct a as [|l a], b as [|k b].
  - reflexivity.
  - now apply Permutation_nil_cons in P.
  - symmetry in P. now apply Permutation_nil_cons in P.
  - apply py_max_perm, Permutation_map, filter_perm, P.
Qed.

Lemma counts_order_independent_witness :
  let a := [Demo.line "# tool"; Demo.line "def f():"; Demo.line "  x = 1"] in
  let b := [Demo.line "  x = 1"; Demo.line "# tool"; Demo.line "def f():"] in
  Permutation a b
  /\ functions Demo.ascii_only a = functions Demo.ascii_only b
  /\ max_indent a = max_indent b.
Proof.
  intros a b.
  assert (Permutation a b) as P.
  { unfold a, b.
    apply (Permutation_cons_app [Demo.line "  x = 1"] [Demo.line "def f():"]).
    apply perm_swap. }
  split; [exact P|].
  destruct (counts_order_independent Demo.ascii_only a b P)
    as (_ & _ & _ & _ & Hf & Hm).
  auto.
Defined.

(** ** More about runs *)

Section RunMore.

Variable unicode_alnum : char -> bool.
Variable fs : filesystem.

Lemma forallb_false_exists {A} (f : A -> bool) (l : list A) :
  forallb f l = false -> exists x, In x l /\ f x = false.
Proof.
  induction l as [|a l IH]; simpl; [discriminate|].
  destruct (f a) eqn:E; simpl.
  - intros H. destruct (IH H) as (x & Hx & Hf). eauto.
  - intros _. eauto.
Qed.

Lemma opened_after_analysis (path : str) (w : world) :
  opened (snd (analyze_file unicode_alnum fs path w)) = opened w ++ [path].
Proof. now rewrite analyze_file_frame. Qed.

(** What the analysis has written, if anything, starts with the line of
    the file path. *)
Lemma analysis_output_head (path : str) :
  let out := stdout (snd (analyze_file unicode_alnum fs path start)) in
  out = [] \/ exists rest, out = of_string "File: " ++ path ++ newline ++ rest.
Proof.
  unfold analyze_file, bind, open_readlines.
  destruct (fs path) as [lines|e]; [|now left].
  destruct (max_indent_pure lines) as [[mi ->]| ->]; [|now left].
  right. unfold ret, print. cbn [stdout opened].
  destruct (truediv_pure (comment_lines lines) (Z.max (code_lines lines) 1))
    as [[q ->]|[e ->]]; unfold ret, raise; cbn [stdout opened fst snd app];
    rewrite <- ?app_assoc; eexists; reflexivity.
Qed.

End RunMore.

(** X2. Of the computations of the statistics only the maximum can
    raise, and it raises exactly for a file that is not empty and has
    only blank lines. The division of the ratio never divides by zero
    and, for a file that a list can hold, never overflows; the ratio is
    then a finite float that is not negative. *)
Theorem statistics_raise_only_on_blank_files (lines : list str) :
  total_lines lines <= maxsize ->
  (max_indent lines = raise ValueError
   <-> lines <> [] /\ forall l, In l lines -> is_blank l = true)
  /\ ((exists mi, max_indent lines = ret mi)
      <-> lines = [] \/ exists l, In l lines /\ is_blank l = false)
  /\ exists q,
       truediv (comment_lines lines) (Z.max (code_lines lines) 1) = ret q
       /\ Float.is_finite q = true
       /\ (Float.mul q (Float.of_int 100) = S754_zero false
           \/ exists m e,
                Float.mul q (Float.of_int 100) = S754_finite false m e).
Proof.
  intros Hsize.
  assert (lines = []
          \/ (lines <> [] /\ forall l, In l lines -> is_blank l = true)
          \/ exists l, In l lines /\ is_blank l = false) as Cases.
  { destruct lines as [|l0 lines']; [now left|right].
    destruct (forallb is_blank (l0 :: lines')) eqn:F.
    - left. split; [discriminate|]. now apply forallb_forall.
    - right. now apply forallb_false_exists. }
  split; [|split].
  - split.
    + intros Hraise. destruct Cases as [->|[H|(l & Hl & Hb)]].
      * exfalso. now apply (raise_not_ret ValueError 0).
      * exact H.
      * exfalso. destruct (max_indent_spec lines l Hl Hb) as (mi & Hmi & _).
        rewrite Hmi in Hraise. symmetry in Hraise.
        now apply raise_not_ret in Hraise.
    + intros [Hne Hall]. now apply max_indent_blank.
  - split.
    + intros [mi Hmi]. destruct Cases as [->|[[Hne Hall]|H]].
      * now left.
      * exfalso. rewrite (max_indent_blank lines Hne Hall) in Hmi.
        now apply raise_not_ret in Hmi.
      * now right.
    + intros [->|(l & Hl & Hb)]; [now exists 0|].
      destruct (max_indent_spec lines l Hl Hb) as (mi & Hmi & _). eauto.
  - assert (0 <= comment_lines lines <= maxsize) as Hc.
    { unfold comment_lines, total_lines in *.
      pose proof (count_nonneg is_comment lines).
      pose proof (count_le_length is_comment lines). lia. }
    destruct (ratio_finite (comment_lines lines) (code_lines lines) Hc)
      as [Hfin Hratio].
    exists (Float.div_int (comment_lines lines) (Z.max (code_lines lines) 1)).
    split; [|split; [exact Hfin|exact Hratio]].
    unfold truediv.
    replace (Z.max (code_lines lines) 1 =? 0) with false
      by (symmetry; apply Z.eqb_neq; lia).
    now rewrite Hfin.
Qed.

Lemma statistics_raise_only_on_blank_files_witness :
  let blank := [newline; of_string "   " ++ newline] in
  let module := [Demo.line "# tool"; Demo.line "def f():"] in
  (total_lines blank <= maxsize /\ total_lines module <= maxsize)
  /\ max_indent blank = raise ValueError
  /\ exists mi, max_indent module = ret mi.
Proof.
  intros blank module.
  assert (total_lines blank <= maxsize) as Hb by (vm_compute; discriminate).
  assert (total_lines module <= maxsize) as Hm by (vm_compute; discriminate).
  split; [auto|]. split.
  - apply (proj1 (statistics_raise_only_on_blank_files blank Hb)).
    split; [discriminate|].
    intros l [<-|[<-|[]]]; reflexivity.
  - apply (proj1 (proj2 (statistics_raise_only_on_blank_files module Hm))).
    right. exists (Demo.line "# tool"). split; [now left|reflexivity].
Defined.

(** X3. A run of the script opens at most one file, the one its first
    positional argument names, and none without such an argument; the
    other arguments are never read. When there is such an argument the
    usage text is not written: the output is empty or starts with the
    line of the file path. *)
Theorem run_opens_first_argument_only
    (unicode_alnum : char -> bool) (fs : filesystem) :
  (forall argv,
      files_opened (run unicode_alnum fs argv)
      = match argv with
        | _ :: path :: _ => [path]
        | _ => []
        end)
  /\ (forall script path rest,
        output (run unicode_alnum fs (script :: path :: rest)) = []
        \/ exists more,
             output (run unicode_alnum fs (script :: path :: rest))
             = of_string "File: " ++ path ++ newline ++ more).
Proof.
  split.
  - intros argv. destruct argv as [|script [|path rest]]; try reflexivity.
    rewrite run_path.
    pose proof (opened_after_analysis unicode_alnum fs path start) as H.
    destruct (analyze_file unicode_alnum fs path start) as [r w'].
    exact H.
  - intros script path rest. rewrite run_path.
    pose proof (analysis_output_head unicode_alnum fs path) as H.
    cbv zeta in H.
    destruct (analyze_file unicode_alnum fs path start) as [r w'].
    exact H.
Qed.

(** ** More about the function pattern *)

Section PatternMore.

Variable unicode_alnum : char -> bool.

Lemma func_opener_app (l t : str) :
  func_opener unicode_alnum l -> func_opener unicode_alnum (l ++ t).
Proof.
  intros (ws & body & -> & Hws & H).
  exists ws, (body ++ t). split; [now rewrite app_assoc|]. split; [exact Hws|].
  destruct H as [H|[H|[H|(ident & tail & Hne & Hid & [->| ->])]]].
  - left. apply startswith_spec in H as [u ->]. apply startswith_spec.
    exists (u ++ t). now rewrite app_assoc.
  - right; left. apply startswith_spec in H as [u ->]. apply startswith_spec.
    exists (u ++ t). now rewrite app_assoc.
  - right; right; left. apply startswith_spec in H as [u ->].
    apply startswith_spec. exists (u ++ t). now rewrite app_assoc.
  - right; right; right. exists ident, (tail ++ t).
    repeat split; try assumption. left. now rewrite <- !app_assoc.
  - right; right; right. exists ident, (tail ++ t).
    repeat split; try assumption. right. now rewrite <- !app_assoc.
Qed.

(** The part of an opener after its indentation is the line without its
    leading whitespace. *)
Lemma func_opener_lstrip (l : str) :
  func_opener unicode_alnum l <-> func_opener unicode_alnum (lstrip l).
Proof.
  split.
  - intros H. destruct (opener_head _ _ H) as (c & t & Hl & Hc).
    destruct H as (ws & body & -> & Hws & H).
    rewrite (lstrip_app _ _ Hws) in *.
    assert (lstrip body = body) as E.
    { destruct H as [H|[H|[H|(ident & tail & _ & _ & [->| ->])]]];
        try (apply startswith_spec in H as [u ->]); reflexivity. }
    rewrite E. exists [], body. repeat split; assumption.
  - intros (ws & body & E & Hws & H).
    destruct (lstrip_split l) as (pre & Hl & Hpre).
    exists (pre ++ ws), body. split; [|split; [|exact H]].
    + rewrite <- app_assoc, <- E. exact Hl.
    + now rewrite forallb_app, Hpre, Hws.
Qed.

Lemma is_function_lstrip (l : str) :
  is_function unicode_alnum l = is_function unicode_alnum (lstrip l).
Proof.
  destruct (is_function unicode_alnum l) eqn:E.
  - symmetry. apply (proj2 (is_function_spec _ _)).
    apply (proj1 (func_opener_lstrip l)).
    now apply (proj1 (is_function_spec _ _)).
  - destruct (is_function unicode_alnum (lstrip l)) eqn:E'; [|reflexivity].
    apply (proj1 (is_function_spec _ _)) in E'.
    apply (proj2 (func_opener_lstrip l)) in E'.
    apply (proj2 (is_function_spec _ _)) in E'. congruence.
Qed.

End PatternMore.

(** X8. Whether a line is counted as a function depends only on how it
    starts: text added after a line that is counted leaves it counted,
    and so does whitespace added or removed before any line, whatever
    the amount and the kind of the whitespace. *)
Theorem function_match_by_line_start
    (unicode_alnum : char -> bool) (l : str) :
  (forall t, is_function unicode_alnum l = true ->
             is_function unicode_alnum (l ++ t) = true)
  /\ (forall ws, forallb isspace ws = true ->
                 is_function unicode_alnum (ws ++ l)
                 = is_function unicode_alnum l)
  /\ is_function unicode_alnum (lstrip l) = is_function unicode_alnum l.
Proof.
  split; [|split].
  - intros t H. apply (proj2 (is_function_spec _ _)), func_opener_app.
    now apply (proj1 (is_function_spec _ _)).
  - intros ws Hws.
    rewrite (is_function_lstrip _ (ws ++ l)), (lstrip_app ws l Hws).
    symmetry. apply is_function_lstrip.
  - symmetry. apply is_function_lstrip.
Qed.

(** X9. A Python coroutine definition is a code line that is not counted
    as a function: of the lines that start with [async], only those that
    go on with [function ] are counted, so a line that goes on, after
    its indentation, with [async def ] is not. *)
Theorem async_def_not_counted
    (unicode_alnum : char -> bool) (ws rest : str) :
  forallb isspace ws = true ->
  let l := ws ++ of_string "async def " ++ rest in
  is_function unicode_alnum l = false
  /\ is_code l = true
  /\ is_function unicode_alnum (ws ++ of_string "async function " ++ rest) = true
  /\ is_function unicode_alnum (ws ++ of_string "def " ++ rest) = true.
Proof.
  intros Hws l. subst l.
  rewrite !(is_function_lstrip unicode_alnum (ws ++ _)), !(lstrip_app ws _ Hws).
  rewrite is_code_lstrip, (lstrip_app ws _ Hws), forallb_app, Hws.
  repeat split; reflexivity.
Qed.

Lemma async_def_not_counted_witness :
  let ws := of_string "    " in
  let rest := of_string "fetch(url):" ++ newline in
  forallb isspace ws = true
  /\ is_function Demo.ascii_only (ws ++ of_string "async def " ++ rest) = false
  /\ is_code (ws ++ of_string "async def " ++ rest) = true.
Proof.
  intros ws rest.
  assert (forallb isspace ws = true) as Hws by reflexivity.
  split; [exact Hws|].
  destruct (async_def_not_counted Demo.ascii_only ws rest Hws)
    as (Hf & Hc & _ & _).
  auto.
Defined.

(** ** More about the ratio *)

Section RatioMore.

Lemma div_eucl_mul (a b : Z) : 0 < b -> Z.div_eucl (a * b) b = (a, 0).
Proof.
  intros Hb. pose proof (Z_div_mult a b ltac:(lia)) as Hq.
  pose proof (Z_mod_mult a b) as Hr.
  unfold Z.div, Z.modulo in *. destruct (Z.div_eucl (a * b) b). congruence.
Qed.

Lemma new_location_exact (n : Z) : new_location n 0 = loc_Exact.
Proof. unfold new_location. now destruct (Z.even n). Qed.

(** An int divided by itself is the float one. *)
Lemma div_int_self (n : Z) : 0 < n -> Float.div_int n n = Float.of_int 1.
Proof.
  intros Hn. destruct n as [|p|p]; try lia.
  unfold Float.div_int, Float.exact_of_int, SFdiv, SFdiv_core_binary.
  rewrite fexp_eq.
  replace (Z.min (Z.max (Zdigits2 (Z.pos p) + 0 - (Zdigits2 (Z.pos p) + 0) - 53)
                    (-1074)) (0 - 0)) with (-53) by lia.
  change (0 - 0 - -53) with 53.
  rewrite Z.shiftl_mul_pow2 by lia.
  rewrite (Z.mul_comm (Z.pos p)), div_eucl_mul by lia.
  rewrite new_location_exact.
  change (2 ^ 53) with (Zpos 4503599627370496 * 2 ^ 1).
  rewrite binary_round_aux_exact by lia. reflexivity.
Qed.

Lemma ratio_no_comment (code : Z) : ratio 0 code = S754_zero false.
Proof.
  unfold ratio, Float.div_int. cbn [Float.exact_of_int].
  destruct (Z.max code 1) as [|d|d] eqn:E; try lia. reflexivity.
Qed.

Lemma ratio_equal_counts (n : Z) : 0 < n -> ratio n n = Float.of_int 100.
Proof.
  intros Hn. unfold ratio. rewrite Z.max_l by lia.
  rewrite div_int_self by assumption.
  now rewrite (mul_of_int_100 1) by lia.
Qed.

End RatioMore.

(** X10. Two values of the comment ratio that do not depend on the size
    of the file: without comment lines the ratio is written [0.0],
    whatever the number of code lines, and with as many comment lines as
    code lines, at least one, it is written [100.0]. *)
Theorem ratio_zero_and_hundred (code n : Z) :
  0 < n ->
  Float.format_1f (ratio 0 code) = of_string "0.0"
  /\ Float.format_1f (ratio n n) = of_string "100.0".
Proof.
  intros Hn. split.
  - now rewrite ratio_no_comment.
  - now rewrite ratio_equal_counts.
Qed.

Lemma ratio_zero_and_hundred_witness :
  let plain := [Demo.line "x = 1"; Demo.line "y = 2"] in
  let even := [Demo.line "# set x"; Demo.line "x = 1";
               Demo.line "// set y"; Demo.line "y = 2"] in
  (comment_lines plain = 0 /\ comment_lines even = 2 /\ code_lines even = 2)
  /\ 0 < 2
  /\ Float.format_1f (ratio 0 (code_lines plain)) = of_string "0.0"
  /\ Float.format_1f (ratio 2 2) = of_string "100.0".
Proof.
  intros plain even.
  split; [repeat split; reflexivity|].
  assert (0 < 2) as H by lia.
  split; [exact H|].
  exact (ratio_zero_and_hundred (code_lines plain) 2 H).
Defined.

Section ExitStatus.

Variable unicode_alnum : char -> bool.
Variable fs : filesystem.



End ExitStatus.


